(** * davinci3-wiki: the web scraper pipeline of [tools/web_scraper.py]

    A shallow embedding of [fetch_page], [parse_html], [noise_patterns],
    [_parse_html_impl] and [process_urls], with the properties of the
    design document stated over it.

    Conventions.
    - A Python [str] is a [string]; its characters are read as the code
      points below 256.
    - [Optional[str]] is [option string]; Python truthiness of such a value
      is [truthy].
    - A Python exception is a value of [exn]; code that may raise returns a
      [result].
    - The browser backend and [html5lib.parse] are external: they are
      parameters of the development. *)

From Stdlib Require Import Ascii String.
From stdpp Require Import base decidable option list gmap strings.

Local Open Scope string_scope.
Local Open Scope list_scope.
Set Warnings "-register-all".

(** ** Python strings *)

Module PyStr.

(** [str.isspace] on one character, for code points below 256:
    TAB..CR, FS..US, SPACE, NEL and NBSP. *)
Definition isspace (c : ascii) : bool :=
  let n := nat_of_ascii c in
  (((9 <=? n) && (n <=? 13)) || ((28 <=? n) && (n <=? 32))
  || (n =? 133) || (n =? 160))%nat.

(** [s.lstrip()] *)
Fixpoint lstrip (s : string) : string :=
  match s with
  | String c s' => if isspace c then lstrip s' else s
  | EmptyString => EmptyString
  end.

(** [s.rstrip()] *)
Fixpoint rstrip (s : string) : string :=
  match s with
  | String c s' =>
      match rstrip s' with
      | EmptyString => if isspace c then EmptyString else String c EmptyString
      | r => String c r
      end
  | EmptyString => EmptyString
  end.

(** [s.strip()] *)
Definition strip (s : string) : string := rstrip (lstrip s).

(** [c.lower()] for code points below 256: A..Z and the upper-case
    letters of Latin-1 (0xC0..0xDE without the multiplication sign). *)
Definition lower_char (c : ascii) : ascii :=
  let n := nat_of_ascii c in
  if (((65 <=? n) && (n <=? 90))
      || ((192 <=? n) && (n <=? 222) && negb (n =? 215)))%nat
  then ascii_of_nat (n + 32) else c.

(** [s.lower()] *)
Fixpoint lower (s : string) : string :=
  match s with
  | String c s' => String (lower_char c) (lower s')
  | EmptyString => EmptyString
  end.

(** [s.startswith(w)] *)
Fixpoint startswith (w s : string) : bool :=
  match w, s with
  | EmptyString, _ => true
  | String a w', String b s' => if Ascii.eqb a b then startswith w' s' else false
  | String _ _, EmptyString => false
  end.

(** [w in s] *)
Fixpoint contains (w s : string) : bool :=
  startswith w s ||
  match s with
  | String _ s' => contains w s'
  | EmptyString => false
  end.

(** [sep.join(parts)] *)
Fixpoint join (sep : string) (parts : list string) : string :=
  match parts with
  | [] => ""
  | [p] => p
  | p :: rest => p +:+ sep +:+ join sep rest
  end.

(** [s * n] *)
Fixpoint repeat (s : string) (n : nat) : string :=
  match n with
  | O => ""
  | S n' => s +:+ repeat s n'
  end.

(** Truthiness of a [str]: the empty string is falsy. *)
Definition nonempty (s : string) : bool :=
  match s with EmptyString => false | String _ _ => true end.

(** Truthiness of an [Optional[str]]: [None] and [""] are falsy. *)
Definition truthy (o : option string) : bool :=
  match o with Some s => nonempty s | None => false end.

(** The line feed, ["\n"]. *)
Definition nl : string := String (ascii_of_nat 10) EmptyString.

End PyStr.

(** ** Exceptions *)

(** An exception carries its class name and the text [str(e)] yields. *)
Record exn := Exception { exn_class : string; exn_str : string }.

Inductive result (A : Type) : Type :=
| Ok (a : A)
| Raise (e : exn).
Arguments Ok {A} a.
Arguments Raise {A} e.

Definition bind {A B} (r : result A) (k : A -> result B) : result B :=
  match r with
  | Ok a => k a
  | Raise e => Raise e
  end.

Notation "x <- r ;; k" := (bind r (fun x => k))
  (at level 100, r at next level, right associativity).

(** ** The noise filter ([noise_patterns], lines 52-67) *)

(** Every pattern of the list is a regular expression without repetition:
    escaped literals and one alternation. Such a pattern denotes a finite
    set of words, and [pattern.search(line)] holds iff one of the words
    occurs in [line]. A compiled pattern is kept as the list of its
    words, in the order of the alternation. *)
Definition pattern := list string.

Definition search (p : pattern) (line : string) : bool :=
  existsb (fun w => PyStr.contains w line) p.

Definition noise_patterns : list pattern :=
  [ ["function()"];
    [".ready("];
    ["<![CDATA["];
    ["]]>"];
    ["onload"; "onclick"; "onmouseover"; "onmouseout"; "onsubmit";
     "onfocus"; "onblur"];
    ["javascript:"];
    ["style="];
    ["class="];
    ["id="];
    [".getElementById"];
    [".getElementsBy"];
    ["document."];
    ["window."];
    ["$("] ].

(** The inner loop of lines 169-174: [skip] becomes true at the first
    pattern that matches, and the loop breaks there. *)
Fixpoint skip_line (patterns : list pattern) (line : string) : bool :=
  match patterns with
  | [] => false
  | p :: rest => if search p line then true else skip_line rest line
  end.

(** The outer loop of lines 167-176. *)
Fixpoint filter_lines (patterns : list pattern) (result : list string)
  : list string :=
  match result with
  | [] => []
  | line :: rest =>
      if skip_line patterns line then filter_lines patterns rest
      else line :: filter_lines patterns rest
  end.

(** ** The parsed document

    [html5lib.parse(..., namespaceHTMLElements=False)] returns the root of
    an ElementTree. An element has a tag, an attribute dictionary, the text
    before its first child, the text after its closing tag ([tail]) and its
    children. A comment node is an element whose tag is not a string:
    its tag is [None] here. *)
Inductive element : Type :=
| Element (tag : option string) (attrib : gmap string string)
    (text tail : option string) (children : list element).

Definition tag (e : element) : option string :=
  match e with Element t _ _ _ _ => t end.
Definition attrib (e : element) : gmap string string :=
  match e with Element _ a _ _ _ => a end.
Definition text (e : element) : option string :=
  match e with Element _ _ x _ _ => x end.
Definition tail (e : element) : option string :=
  match e with Element _ _ _ x _ => x end.
Definition children (e : element) : list element :=
  match e with Element _ _ _ _ cs => cs end.

(** [element.tag == name] *)
Definition tag_is (name : string) (e : element) : bool :=
  match tag e with
  | Some t => String.eqb t name
  | None => false
  end.

(** [element.iter()]: the element and its descendants in document order. *)
Fixpoint iter (e : element) : list element :=
  match e with
  | Element _ _ _ _ cs =>
      e :: (fix over (l : list element) : list element :=
              match l with
              | [] => []
              | c :: l' => iter c ++ over l'
              end) cs
  end.

(** [element.findall(".//name")]: the descendants with that tag, the
    element itself left out, in document order. *)
Definition findall (name : string) (e : element) : list element :=
  List.filter (tag_is name) (List.tl (iter e)).

(** [element.find(".//name")] *)
Definition find (name : string) (e : element) : option element :=
  head (findall name e).

(** Truthiness of [list(element)]. *)
Definition has_children (e : element) : bool :=
  match children e with [] => false | _ :: _ => true end.

(** [should_skip_element], lines 90-102. *)
Definition should_skip_element (e : element) : bool :=
  if tag_is "script" e || tag_is "style" e then true
  else if negb (PyStr.truthy (text e)) && negb (has_children e) then true
  else match text e with
       | Some t =>
           PyStr.nonempty t && String.eqb (PyStr.strip t) ""
           && negb (has_children e)
       | None => false
       end.

(** ** The browser backend and the event loop *)

(** What the pipeline does to the outside world, in the order it happens.
    A context is named by the rank of the [browser.new_context()] call that
    made it. *)
Inductive event : Type :=
| PlaywrightStart
| Launch
| NewContext (c : nat)
| NewPage (c : nat) (url : string)
| Navigate (c : nat) (url : string)
| PageClose (c : nat) (url : string)
| ToThread (url : string)
| ContextClose (c : nat)
| BrowserClose
| PlaywrightStop.

(** The backend decides which calls raise: [None] is a call that returns.
    [navigate c url] stands for lines 28-30 ([goto], [wait_for_load_state],
    [content]) on a page of context [c]: the rendered page, or the
    exception of the first call that fails. The answer of the backend to a
    call is a function of the context and the URL of the call. *)
Record backend : Type := Backend {
  launch : option exn;
  new_context : nat -> option exn;
  new_page : nat -> string -> option exn;
  navigate : nat -> string -> result string;
  page_close : nat -> string -> option exn;
  context_close : nat -> option exn;
  browser_close : option exn
}.

(** A coroutine object: it has returned, it has raised, or it is suspended
    at an [await] whose completion leaves [ev] and resumes [k]. *)
Inductive coro (A : Type) : Type :=
| Return (a : A)
| Throw (e : exn)
| Await (ev : event) (k : coro A).
Arguments Return {A} a.
Arguments Throw {A} e.
Arguments Await {A} ev k.

(** Running one coroutine to its end: the events it leaves and how it
    ends. *)
Fixpoint finish {A} (c : coro A) : list event * result A :=
  match c with
  | Return a => ([], Ok a)
  | Throw e => ([], Raise e)
  | Await ev k => let r := finish k in (ev :: r.1, r.2)
  end.

(** Code that acts on the world: from the events so far to an outcome and
    the events after it. *)
Definition io (A : Type) : Type := list event -> result A * list event.

Definition io_ret {A} (a : A) : io A := fun tr => (Ok a, tr).
Definition io_raise {A} (e : exn) : io A := fun tr => (Raise e, tr).
Definition io_emit (ev : event) : io unit := fun tr => (Ok tt, tr ++ [ev]).
Definition io_lift {A} (r : result A) : io A := fun tr => (r, tr).
Definition io_bind {A B} (m : io A) (k : A -> io B) : io B :=
  fun tr =>
    match m tr with
    | (Ok a, tr') => k a tr'
    | (Raise e, tr') => (Raise e, tr')
    end.

Notation "x <~ m ;; k" := (io_bind m (fun x => k))
  (at level 100, m at next level, right associativity).

(** [await asyncio.gather] over a list of tasks. The event loop resumes
    the tasks in an order the program does not control: [sched] lists the
    indices it picks. A pick resumes a suspended task up to its next
    [await]; picking a task that has raised makes [gather] raise that
    exception at once; other picks do nothing. When [sched] is used up the
    loop runs what is left, task after task. The outcome is read from the
    tasks in the order they were passed. *)
Fixpoint drain {A} (tasks : list (coro A)) : io (list A) :=
  match tasks with
  | [] => io_ret []
  | c :: rest =>
      fun tr =>
        match (finish c).2 with
        | Ok a =>
            match drain rest (tr ++ (finish c).1) with
            | (Ok l, tr') => (Ok (a :: l), tr')
            | (Raise e, tr') => (Raise e, tr')
            end
        | Raise e => (Raise e, tr ++ (finish c).1)
        end
  end.

Fixpoint gather {A} (sched : list nat) (tasks : list (coro A))
  : io (list A) :=
  match sched with
  | [] => drain tasks
  | j :: sched' =>
      match tasks !! j with
      | Some (Await ev k) =>
          fun tr => gather sched' (<[j := k]> tasks) (tr ++ [ev])
      | Some (Throw e) => io_raise e
      | _ => gather sched' tasks
      end
  end.

Section Scraper.

(** Python's [hash] on strings. *)
Variable hash : string -> Z.

(** [html5lib.parse] with [namespaceHTMLElements=False]. *)
Variable html5lib_parse : string -> result element.

(** The number of nested [process_element] frames the interpreter allows
    below [_parse_html_impl] before it raises [RecursionError], and the
    text of that exception. *)
Variable recursion_budget : nat.
Variable recursion_msg : string.

(** The browser backend behind [async_playwright()]. *)
Variable B : backend.

Definition RecursionError : exn := Exception "RecursionError" recursion_msg.

(** Lines 114-120 for [element.text], and lines 130-136 for [child.tail]:
    a text that is not blank and whose hash is not in [seen_texts] is
    appended to [result] behind the indentation, and its hash is added. *)
Definition emit_text (indent : string) (o : option string)
    (st : list string * gset Z) : list string * gset Z :=
  match o with
  | Some t =>
      if PyStr.nonempty t && PyStr.nonempty (PyStr.strip t) then
        let h := hash (PyStr.strip t) in
        if bool_decide (h ∈ st.2) then st
        else (st.1 ++ [indent +:+ PyStr.strip t], {[h]} ∪ st.2)
      else st
  | None => st
  end.

(** The loop of lines 123-136 over the children of an element, with the
    recursive call of line 125 as [process_child]. The pair is the list
    [result] and the set [seen_texts]. *)
Fixpoint for_children
    (process_child : gset Z -> element -> result (list string * gset Z))
    (indent : string) (cs : list element) (st : list string * gset Z)
  : result (list string * gset Z) :=
  match cs with
  | [] => Ok st
  | child :: rest =>
      st' <- (if should_skip_element child then Ok st
              else
                r <- process_child st.2 child ;;
                Ok (st.1 ++ r.1, r.2)) ;;
      for_children process_child indent rest (emit_text indent (tail child) st')
  end.

(** [process_element], lines 105-138. The set [seen_texts] of the
    enclosing function is threaded through; [indent_cache] only memoises
    ["  " * indentation]. [fuel] is the number of frames left. *)
Fixpoint process_element (fuel : nat) (seen_texts : gset Z)
    (el : element) (indentation : nat) : result (list string * gset Z) :=
  match fuel with
  | O => Raise RecursionError
  | S fuel' =>
      let indent := PyStr.repeat "  " indentation in
      for_children
        (fun seen child => process_element fuel' seen child (S indentation))
        indent (children el)
        (emit_text indent (text el) ([], seen_texts))
  end.

(** Lines 142-144. *)
Definition title_lines (parsed_html : element) : list string :=
  match find "title" parsed_html with
  | Some title_element =>
      match text title_element with
      | Some t => if PyStr.nonempty t then ["Title: " +:+ PyStr.strip t] else []
      | None => []
      end
  | None => []
  end.

(** Lines 147-150: the first [meta] named "description" whose content is
    not empty ends the loop. *)
Fixpoint description_lines (metas : list element) : list string :=
  match metas with
  | [] => []
  | meta :: rest =>
      if String.eqb (PyStr.lower (default "" (attrib meta !! "name")))
           "description"
         && PyStr.truthy (attrib meta !! "content")
      then ["Description: " +:+ PyStr.strip (default "" (attrib meta !! "content"))]
      else description_lines rest
  end.

(** The list [metadata] after line 153. *)
Definition metadata (parsed_html : element) (url : string) : list string :=
  title_lines parsed_html
  ++ description_lines (findall "meta" parsed_html)
  ++ ["URL: " +:+ url].

(** Lines 156-158. *)
Definition body_of (parsed_html : element) : element :=
  match find "body" parsed_html with
  | Some body => body
  | None => parsed_html
  end.

(** The list [content] of line 161. *)
Definition content (parsed_html : element) : result (list string) :=
  r <- process_element recursion_budget ∅ (body_of parsed_html) 0 ;;
  Ok r.1.

(** The list [result] of line 164, the document before the filter. *)
Definition prefilter (parsed_html : element) (url : string)
  : result (list string) :=
  c <- content parsed_html ;;
  Ok (metadata parsed_html url ++ [""] ++ c).

(** The list [filtered_result] after the loop of lines 167-176. *)
Definition filtered_result (html_content url : string)
  : result (list string) :=
  parsed_html <- html5lib_parse html_content ;;
  result <- prefilter parsed_html url ;;
  Ok (filter_lines noise_patterns result).

(** The [try] block of [_parse_html_impl], lines 72-178. *)
Definition parse_try (html_content url : string) : result string :=
  lines <- filtered_result html_content url ;;
  Ok (PyStr.join PyStr.nl lines).

(** [_parse_html_impl], lines 69-182: the handler of line 179 turns every
    exception of the [try] block into the two-part error document. *)
Definition _parse_html_impl (html_content url : string) : string :=
  match parse_try html_content url with
  | Ok s => s
  | Raise e =>
      "URL: " +:+ url +:+ PyStr.nl +:+ PyStr.nl
      +:+ "Error parsing content: " +:+ exn_str e
  end.

(** ** The deduplication, as the design document words it

    The traversal visits the texts and tails of the elements it does not
    skip in document order; each one that is not blank is a candidate
    line. A candidate is emitted unless the hash of its trimmed text was
    met before. The two definitions below say this without the traversal
    state; [process_element] is compared with them further down. *)

(** The candidate line of one text or tail. *)
Definition candidate (indent : string) (o : option string) : list string :=
  match o with
  | Some t =>
      if PyStr.nonempty t && PyStr.nonempty (PyStr.strip t)
      then [indent +:+ PyStr.strip t] else []
  | None => []
  end.

Fixpoint children_candidates
    (child_candidates : element -> result (list string))
    (indent : string) (cs : list element) : result (list string) :=
  match cs with
  | [] => Ok []
  | child :: rest =>
      a <- (if should_skip_element child then Ok []
            else child_candidates child) ;;
      b <- children_candidates child_candidates indent rest ;;
      Ok (a ++ candidate indent (tail child) ++ b)
  end.

(** All candidate lines below an element, in the order of the traversal. *)
Fixpoint candidate_lines (fuel : nat) (el : element) (indentation : nat)
  : result (list string) :=
  match fuel with
  | O => Raise RecursionError
  | S fuel' =>
      let indent := PyStr.repeat "  " indentation in
      r <- children_candidates
             (fun child => candidate_lines fuel' child (S indentation))
             indent (children el) ;;
      Ok (candidate indent (text el) ++ r)
  end.

(** The key of a line: the hash of its text without the indentation. *)
Definition line_key (line : string) : Z := hash (PyStr.lstrip line).

(** Keeping, of the lines with one key, the first that is not in [seen]. *)
Fixpoint first_occurrences (seen : gset Z) (lines : list string)
  : list string * gset Z :=
  match lines with
  | [] => ([], seen)
  | l :: rest =>
      if bool_decide (line_key l ∈ seen) then first_occurrences seen rest
      else
        let r := first_occurrences ({[line_key l]} ∪ seen) rest in
        (l :: r.1, r.2)
  end.

(** A string that does not start with white space. *)
Definition no_leading_space (s : string) : Prop :=
  match s with
  | String c _ => PyStr.isspace c = false
  | EmptyString => True
  end.

(** [fetch_page], lines 23-37. [context.new_page()] is outside the [try];
    the handler of line 33 turns a failed navigation into [None]; the
    [finally] closes the page, and an exception there replaces the
    value. *)
Definition fetch_page (url : string) (context : nat) : coro (option string) :=
  match new_page B context url with
  | Some e => Throw e
  | None =>
      Await (NewPage context url)
        (Await (Navigate context url)
           (match page_close B context url with
            | Some e => Throw e
            | None =>
                Await (PageClose context url)
                  (Return (match navigate B context url with
                           | Ok content => Some content
                           | Raise _ => None
                           end))
            end))
  end.

(** [parse_html], lines 39-49. [_parse_html_impl] does not raise, so the
    handler of line 47 has nothing to catch. *)
Definition parse_html (html_content : option string) (url : string)
  : coro string :=
  if negb (PyStr.truthy html_content) then Return ""
  else Await (ToThread url)
         (Return (_parse_html_impl (default "" html_content) url)).

Definition ZeroDivisionError : exn :=
  Exception "ZeroDivisionError" "integer modulo by zero".
Definition IndexError : exn :=
  Exception "IndexError" "list index out of range".
Definition UnboundLocalError : exn :=
  Exception "UnboundLocalError"
    "cannot access local variable 'contexts' where it is not associated with a value".

(** Line 191: one [browser.new_context()] call after the other; [k] is the
    rank of the next call. *)
Fixpoint create_contexts (k n : nat) : io (list nat) :=
  match n with
  | O => io_ret []
  | S n' =>
      match new_context B k with
      | Some e => io_raise e
      | None =>
          _ <~ io_emit (NewContext k) ;;
          rest <~ create_contexts (S k) n' ;;
          io_ret (k :: rest)
      end
  end.

(** Lines 194-198: URL [i] gets [contexts[i % len(contexts)]]. The
    coroutine objects are only made here, nothing runs yet. *)
Fixpoint make_fetch_tasks (i : nat) (urls : list string) (contexts : list nat)
  : result (list (coro (option string))) :=
  match urls with
  | [] => Ok []
  | url :: rest =>
      if Nat.eqb (length contexts) 0 then Raise ZeroDivisionError
      else
        match contexts !! (i mod length contexts)%nat with
        | Some context =>
            tasks <- make_fetch_tasks (S i) rest contexts ;;
            Ok (fetch_page url context :: tasks)
        | None => Raise IndexError
        end
  end.

(** Lines 194-207, with [contexts] bound. *)
Definition fetch_and_parse (sched_fetch sched_parse : list nat)
    (urls : list string) (contexts : list nat) : io (list string) :=
  fetch_tasks <~ io_lift (make_fetch_tasks 0 urls contexts) ;;
  html_contents <~ gather sched_fetch fetch_tasks ;;
  gather sched_parse (zip_with parse_html html_contents urls).

(** The [try] block, lines 189-207. Besides the outcome it yields the
    binding of the local variable [contexts] when the block is left:
    [None] when line 191 did not complete, so that nothing was assigned. *)
Definition try_block (sched_fetch sched_parse : list nat)
    (urls : list string) (max_concurrent : Z) (tr : list event)
  : result (list string) * option (list nat) * list event :=
  let n_contexts := Z.min (Z.of_nat (length urls)) max_concurrent in
  match create_contexts 0 (Z.to_nat n_contexts) tr with
  | (Ok contexts, tr') =>
      let r := fetch_and_parse sched_fetch sched_parse urls contexts tr' in
      (r.1, Some contexts, r.2)
  | (Raise e, tr') => (Raise e, None, tr')
  end.

(** Lines 211-212. *)
Fixpoint close_contexts (contexts : list nat) : io unit :=
  match contexts with
  | [] => io_ret tt
  | context :: rest =>
      match context_close B context with
      | Some e => io_raise e
      | None => _ <~ io_emit (ContextClose context) ;; close_contexts rest
      end
  end.

(** The [finally] block, lines 209-213. Reading [contexts] while it is
    unbound raises [UnboundLocalError]. *)
Definition finally_block (contexts : option (list nat)) : io unit :=
  match contexts with
  | None => io_raise UnboundLocalError
  | Some cs =>
      _ <~ close_contexts cs ;;
      match browser_close B with
      | Some e => io_raise e
      | None => io_emit BrowserClose
      end
  end.

(** Lines 187-213: an exception of the [finally] block replaces the
    outcome of the [try] block. *)
Definition launch_and_run (sched_fetch sched_parse : list nat)
    (urls : list string) (max_concurrent : Z) : io (list string) :=
  match launch B with
  | Some e => io_raise e
  | None =>
      fun tr =>
        let '(r, contexts, tr1) :=
          try_block sched_fetch sched_parse urls max_concurrent (tr ++ [Launch]) in
        match finally_block contexts tr1 with
        | (Ok _, tr2) => (r, tr2)
        | (Raise e, tr2) => (Raise e, tr2)
        end
  end.

(** [process_urls], lines 184-213. [async with async_playwright()] starts
    the driver and stops it on every way out. *)
Definition process_urls (sched_fetch sched_parse : list nat)
    (urls : list string) (max_concurrent : Z) : io (list string) :=
  fun tr =>
    let r := launch_and_run sched_fetch sched_parse urls max_concurrent
               (tr ++ [PlaywrightStart]) in
    (r.1, r.2 ++ [PlaywrightStop]).

(** ** Vocabulary of the statements about [process_urls] *)

(** The size of the pool, line 190. *)
Definition pool_size (urls : list string) (max_concurrent : Z) : nat :=
  Z.to_nat (Z.min (Z.of_nat (length urls)) max_concurrent).

(** A backend on which the pool itself works: launching, making and
    closing contexts and pages do not fail. Navigation may fail. *)
Definition pool_ok : Prop :=
  launch B = None
  /\ (forall k, new_context B k = None)
  /\ (forall c url, new_page B c url = None)
  /\ (forall c url, page_close B c url = None)
  /\ (forall c, context_close B c = None)
  /\ browser_close B = None.

(** What [fetch_page] hands back once the page is made and closed: the
    rendered page, or [None] after a failed navigation. *)
Definition fetched (context : nat) (url : string) : option string :=
  match navigate B context url with
  | Ok content => Some content
  | Raise _ => None
  end.

(** What [parse_html] hands back. *)
Definition extraction (html_content : option string) (url : string) : string :=
  if PyStr.truthy html_content
  then _parse_html_impl (default "" html_content) url
  else "".

(** [m] only adds events, and each event it adds satisfies [P]. *)
Definition appends {A} (P : event -> Prop) (m : io A) : Prop :=
  forall tr, exists evs, (m tr).2 = tr ++ evs /\ Forall P evs.

Definition is_new_context (ev : event) : bool :=
  match ev with NewContext _ => true | _ => false end.

Definition is_teardown (ev : event) : bool :=
  match ev with ContextClose _ | BrowserClose => true | _ => false end.

(** The events of fetching and parsing: every page event is for some URL
    [i] of the list, on context [i mod n]. *)
Definition page_event (urls : list string) (n : nat) (ev : event) : Prop :=
  match ev with
  | NewPage c url | Navigate c url | PageClose c url =>
      exists i, urls !! i = Some url /\ c = (i mod n)%nat
  | ToThread url => url ∈ urls
  | _ => False
  end.

(** ** Sample inputs *)

Definition sample_element (name : string) (txt : option string)
    (cs : list element) : element :=
  Element (Some name) ∅ txt None cs.

(** The document of the end-to-end scenario and the tree [html5lib]
    builds for it. *)
Definition hi_html : string :=
  "<html><head><title>T</title></head><body><p>Hi</p><p>Hi</p></body></html>".

Definition hi_tree : element :=
  sample_element "html" None
    [ sample_element "head" None [ sample_element "title" (Some "T") [] ];
      sample_element "body" None
        [ sample_element "p" (Some "Hi") [];
          sample_element "p" (Some "Hi") [] ] ].

(** A page whose body starts with the text of its own title line. *)
Definition echo_html : string :=
  "<html><head><title>T</title></head><body>Title: T</body></html>".

Definition echo_tree : element :=
  sample_element "html" None
    [ sample_element "head" None [ sample_element "title" (Some "T") [] ];
      sample_element "body" (Some "Title: T") [] ].

(** A page whose title names an attribute. *)
Definition attr_html : string :=
  "<html><head><title>The id= attribute</title></head><body><p>Hi</p></body></html>".

Definition attr_tree : element :=
  sample_element "html" None
    [ sample_element "head" None
        [ sample_element "title" (Some "The id= attribute") [] ];
      sample_element "body" None [ sample_element "p" (Some "Hi") [] ] ].

(** The tree of a document without content. *)
Definition empty_tree : element :=
  sample_element "html" None
    [ sample_element "head" None []; sample_element "body" None [] ].

(** A thousand [div]s inside one another around one character. *)
Fixpoint nested_divs (n : nat) : element :=
  match n with
  | O => sample_element "div" (Some "x") []
  | S n' => sample_element "div" None [nested_divs n']
  end.

Definition deep_html : string := PyStr.repeat "<div>" 1000 +:+ "x".

Definition deep_tree : element :=
  sample_element "html" None
    [ sample_element "head" None [];
      sample_element "body" None [nested_divs 999] ].

Definition sample_parse (html_content : string) : result element :=
  if String.eqb html_content hi_html then Ok hi_tree
  else if String.eqb html_content echo_html then Ok echo_tree
  else if String.eqb html_content attr_html then Ok attr_tree
  else if String.eqb html_content deep_html then Ok deep_tree
  else Ok empty_tree.

(** A 64-bit multiplicative string hash. *)
Fixpoint sample_hash_from (h : Z) (s : string) : Z :=
  match s with
  | EmptyString => h
  | String c s' =>
      sample_hash_from ((h * 1000003 + Z.of_nat (nat_of_ascii c)) mod 2 ^ 64)%Z s'
  end.
Definition sample_hash (s : string) : Z := sample_hash_from 0 s.

(** A backend on which every pool operation succeeds, every page reads
    [hi_html], and the host of the error tests cannot be resolved. *)
Definition sample_backend : backend :=
  {| launch := None;
     new_context := fun _ => None;
     new_page := fun _ _ => None;
     navigate := fun _ url =>
       if String.eqb url "https://nonexistent-domain-12345.com"
       then Raise (Exception "Error" "net::ERR_NAME_NOT_RESOLVED")
       else Ok hi_html;
     page_close := fun _ _ => None;
     context_close := fun _ => None;
     browser_close := None |}.

(** The text of [RecursionError] and a budget of frames for the samples. *)
Definition sample_recursion_msg : string := "maximum recursion depth exceeded".
Definition sample_budget : nat := 900.

(** A backend on which nothing fails. *)
Definition steady_backend : backend :=
  {| launch := None;
     new_context := fun _ => None;
     new_page := fun _ _ => None;
     navigate := fun _ _ => Ok hi_html;
     page_close := fun _ _ => None;
     context_close := fun _ => None;
     browser_close := None |}.

(** The first three URLs of the isolation test. *)
Definition sample_urls : list string :=
  [ "https://en.wikipedia.org/wiki/Python_(programming_language)";
    "https://nonexistent-domain-12345.com";
    "https://en.wikipedia.org/wiki/JavaScript" ].

(** A backend on which no page can be made in context 1. *)
Definition pageless_backend : backend :=
  {| launch := None;
     new_context := fun _ => None;
     new_page := fun c _ =>
       if Nat.eqb c 1 then Some (Exception "Error" "Target closed") else None;
     navigate := fun _ _ => Ok hi_html;
     page_close := fun _ _ => None;
     context_close := fun _ => None;
     browser_close := None |}.

(** A backend on which context 1 cannot be closed. *)
Definition stuck_backend : backend :=
  {| launch := None;
     new_context := fun _ => None;
     new_page := fun _ _ => None;
     navigate := fun _ _ => Ok hi_html;
     page_close := fun _ _ => None;
     context_close := fun c =>
       if Nat.eqb c 1 then Some (Exception "Error" "Target closed") else None;
     browser_close := None |}.

(** Two bodies that differ inside a [script] element only. *)
Definition scripted_body (code : string) (inner : list element) : element :=
  sample_element "body" None
    [ Element (Some "script") ∅ (Some code) (Some "after the script") inner;
      sample_element "p" (Some "Hi") [] ].

(** Three [meta] elements: a viewport, a description in capitals, and a
    second description. *)
Definition sample_metas : list element :=
  [ Element (Some "meta") (<["name" := "viewport"]> (<["content" := "width=1"]> ∅))
      None None [];
    Element (Some "meta")
      (<["name" := "DESCRIPTION"]> (<["content" := " An article "]> ∅))
      None None [];
    Element (Some "meta")
      (<["name" := "description"]> (<["content" := "Another one"]> ∅))
      None None [] ].

(** A command line with two arguments that do not validate. *)
Definition sample_arguments : list string :=
  "not_a_url" :: "javascript:alert('test')" :: sample_urls.

(** The same backend, except that the second [new_context] call fails. *)
Definition crashing_backend : backend :=
  {| launch := None;
     new_context := fun k =>
       if Nat.eqb k 1 then Some (Exception "Error" "Target closed") else None;
     new_page := fun _ _ => None;
     navigate := fun _ _ => Ok hi_html;
     page_close := fun _ _ => None;
     context_close := fun _ => None;
     browser_close := None |}.

(** ** The command line ([validate_url] and [main], lines 215-262) *)

Section CommandLine.

(** [urllib.parse.urlparse], as far as [validate_url] reads it: the scheme
    and the network location of the URL, or the exception it raises. *)
Variable urlparse : string -> result (string * string).

(** [validate_url], lines 215-221: both parts must be non-empty, and the
    bare [except] turns every exception into [False]. *)
Definition validate_url (url : string) : bool :=
  match urlparse url with
  | Ok (scheme, netloc) => PyStr.nonempty scheme && PyStr.nonempty netloc
  | Raise _ => false
  end.

(** The loop of lines 237-242; the log lines go to [stderr]. *)
Fixpoint valid_urls (urls : list string) : list string :=
  match urls with
  | [] => []
  | url :: rest =>
      if validate_url url then url :: valid_urls rest else valid_urls rest
  end.

(** The loop of lines 253-256: three [print] calls for each pair of
    [zip(valid_urls, results)]. One entry is the text of one call. *)
Fixpoint print_results (urls results : list string) : list string :=
  match urls, results with
  | url :: urls', text :: results' =>
      (PyStr.nl +:+ "=== Content from " +:+ url +:+ " ===")
        :: text :: PyStr.repeat "=" 80 :: print_results urls' results'
  | _, _ => []
  end.

(** [main], lines 223-262, after [parse_args]: the exit status of the
    process and what it wrote to [stdout]. [sys.exit(1)] at line 246 is
    before anything is started; an exception of [asyncio.run] ends in
    [sys.exit(1)] at line 262; a run that reaches the end of [main] exits
    with status 0. Logging goes to [stderr] and is left out. *)
Definition main (sched_fetch sched_parse : list nat)
    (urls : list string) (max_concurrent : Z) (tr : list event)
  : (Z * list string) * list event :=
  match valid_urls urls with
  | [] => ((1%Z, []), tr)
  | url :: rest =>
      match process_urls sched_fetch sched_parse (url :: rest)
              max_concurrent tr with
      | (Ok results, tr') => ((0%Z, print_results (url :: rest) results), tr')
      | (Raise _, tr') => ((1%Z, []), tr')
      end
  end.

End CommandLine.

(** An event that, when it is about a URL, is about a URL of the list. *)
Definition for_urls (urls : list string) (ev : event) : Prop :=
  match ev with
  | NewPage _ url | Navigate _ url | PageClose _ url | ToThread url =>
      url ∈ urls
  | _ => True
  end.

(** ** The success count of the measuring scripts

    [run_benchmark] (web_scraper_benchmark.py, lines 105-109),
    [test_error_isolation] (web_scraper_error_test.py, lines 144-148) and
    [measure_performance] (profile_web_scraper.py, line 55) count the
    results that are true and longer than zero. *)
Fixpoint success_count (results : list string) : nat :=
  match results with
  | [] => O
  | r :: rest =>
      if PyStr.nonempty r && (0 <? String.length r)%nat
      then S (success_count rest) else success_count rest
  end.

(** ** Vocabulary of the statements about the traversal *)



(** [script] and [style] elements. *)
Definition is_script_or_style (e : element) : bool :=
  tag_is "script" e || tag_is "style" e.

(** Two elements that differ only inside [script] and [style] elements,
    in tags other than these two, and in attributes. *)
Inductive same_visible : element -> element -> Prop :=
| same_hidden e e' :
    is_script_or_style e = true ->
    is_script_or_style e' = true ->
    tail e = tail e' ->
    same_visible e e'
| same_shown e e' :
    is_script_or_style e = false ->
    is_script_or_style e' = false ->
    text e = text e' ->
    tail e = tail e' ->
    Forall2 same_visible (children e) (children e') ->
    same_visible e e'.

(** The test of line 148 on a [meta] element. *)
Definition is_description (meta : element) : bool :=
  String.eqb (PyStr.lower (default "" (attrib meta !! "name"))) "description"
  && PyStr.truthy (attrib meta !! "content").

(** The elements the traversal enters from [root], with their depth: the
    root, and the children that are not skipped of an element it enters. *)
Inductive visited (root : element) (d0 : nat) : element -> nat -> Prop :=
| visited_root : visited root d0 root d0
| visited_child parent d child :
    visited root d0 parent d ->
    child ∈ children parent ->
    should_skip_element child = false ->
    visited root d0 child (S d).

(** A stand-in for [urlparse] on the sample URLs: an "https" URL has its
    host up to the first slash, everything else has neither part. *)
Fixpoint up_to_slash (s : string) : string :=
  match s with
  | EmptyString => EmptyString
  | String c s' =>
      if Ascii.eqb c "/"%char then EmptyString else String c (up_to_slash s')
  end.

Definition sample_urlparse (url : string) : result (string * string) :=
  if PyStr.startswith "https://" url
  then Ok ("https", up_to_slash (String.substring 8 (String.length url) url))
  else Ok ("", "").

(** ** The model on small inputs *)

Example strip_example :
  PyStr.strip (" " +:+ PyStr.nl +:+ "Hello  world " +:+ PyStr.nl) = "Hello  world".
Proof. reflexivity. Qed.

Example lower_example : PyStr.lower "Description" = "description".
Proof. reflexivity. Qed.

Example join_example :
  PyStr.join ", " ["a"; "b"; "c"] = "a, b, c" /\ PyStr.join ", " [] = "".
Proof. by split. Qed.

Example skip_line_examples :
  skip_line noise_patterns "<a onclick=go()>" = true
  /\ skip_line noise_patterns "$(document).ready(function() {" = true
  /\ skip_line noise_patterns "Python is a programming language" = false
  /\ skip_line noise_patterns "" = false.
Proof. by repeat split. Qed.

Example should_skip_examples :
  should_skip_element (sample_element "script" (Some "var x;") []) = true
  /\ should_skip_element (sample_element "br" None []) = true
  /\ should_skip_element (sample_element "p" (Some "  ") []) = true
  /\ should_skip_element
       (sample_element "div" (Some "  ") [sample_element "p" (Some "x") []])
     = false
  /\ should_skip_element (Element None ∅ (Some "a comment") None []) = false.
Proof. by repeat split. Qed.

Example findall_example :
  tag <$> findall "p" hi_tree = [Some "p"; Some "p"]
  /\ tag <$> find "title" hi_tree = Some (Some "title")
  /\ find "body" (sample_element "p" None []) = None.
Proof. by repeat split. Qed.

Ltac in_list := apply list_elem_of_In; simpl; tauto.

(** ** Facts about strings *)

Lemma startswith_app_l w x s :
  PyStr.startswith (w +:+ x) s = true -> PyStr.startswith w s = true.
Proof.
  revert s. induction w as [|a w IH]; intros s H; [by destruct s|].
  destruct s as [|b s]; simpl in *; [done|].
  destruct (Ascii.eqb a b); [by apply IH|done].
Qed.

Lemma contains_app_l w x s :
  PyStr.contains (w +:+ x) s = true -> PyStr.contains w s = true.
Proof.
  induction s as [|b s IH]; simpl; rewrite !orb_true_iff.
  - intros [H|H]; [left; by eapply startswith_app_l|done].
  - intros [H|H]; [left; by eapply startswith_app_l|right; by apply IH].
Qed.

Lemma contains_cons w c s :
  PyStr.contains w s = true -> PyStr.contains w (String c s) = true.
Proof. intros H. simpl. rewrite H. apply orb_true_r. Qed.

Lemma contains_prepend w p s :
  PyStr.contains w s = true -> PyStr.contains w (p +:+ s) = true.
Proof.
  intros H. induction p as [|c p IH]; [done|]. by apply contains_cons.
Qed.

(** ** Facts about the noise filter *)

Lemma search_prepend p pre s :
  search p s = true -> search p (pre +:+ s) = true.
Proof.
  unfold search. rewrite !existsb_exists.
  intros (w & Hw & H). exists w. split; [done|]. by apply contains_prepend.
Qed.

Lemma skip_line_existsb ps l :
  skip_line ps l = existsb (fun p => search p l) ps.
Proof.
  induction ps as [|p ps IH]; simpl; [done|].
  rewrite IH. by destruct (search p l).
Qed.

Lemma skip_line_true ps l :
  skip_line ps l = true <-> exists p, p ∈ ps /\ search p l = true.
Proof.
  rewrite skip_line_existsb, existsb_exists.
  split; intros (p & Hp & H); exists p; split; try done;
    by apply list_elem_of_In.
Qed.

Lemma skip_line_prepend ps pre l :
  skip_line ps l = true -> skip_line ps (pre +:+ l) = true.
Proof.
  rewrite !skip_line_true. intros (p & Hp & H).
  exists p. split; [done|]. by apply search_prepend.
Qed.

Lemma skip_line_perm ps ps' l :
  ps ≡ₚ ps' -> skip_line ps l = skip_line ps' l.
Proof.
  intros HP. apply eq_true_iff_eq. rewrite !skip_line_true.
  split; intros (p & Hp & H); exists p; split; try done.
  - by rewrite <- HP.
  - by rewrite HP.
Qed.

Lemma filter_lines_filter ps ls :
  filter_lines ps ls = List.filter (fun l => negb (skip_line ps l)) ls.
Proof.
  induction ls as [|l ls IH]; simpl; [done|].
  rewrite IH. by destruct (skip_line ps l).
Qed.

Lemma filter_lines_perm ps ps' ls :
  ps ≡ₚ ps' -> filter_lines ps ls = filter_lines ps' ls.
Proof.
  intros HP. induction ls as [|l ls IH]; simpl; [done|].
  by rewrite IH, (skip_line_perm ps ps' l HP).
Qed.

Lemma elem_of_filter_lines ps ls l :
  l ∈ filter_lines ps ls <-> l ∈ ls /\ skip_line ps l = false.
Proof.
  by rewrite filter_lines_filter, !list_elem_of_In, filter_In, negb_true_iff.
Qed.

Lemma filter_lines_app ps l1 l2 :
  filter_lines ps (l1 ++ l2) = filter_lines ps l1 ++ filter_lines ps l2.
Proof. rewrite !filter_lines_filter. apply List.filter_app. Qed.

(** A line that contains one of the words of a noise pattern is skipped. *)
Lemma skip_line_word w p l :
  p ∈ noise_patterns -> w ∈ p -> PyStr.contains w l = true ->
  skip_line noise_patterns l = true.
Proof.
  intros Hp Hw H. apply skip_line_true. exists p. split; [done|].
  unfold search. apply existsb_exists. exists w.
  split; [by apply list_elem_of_In|done].
Qed.

Lemma skip_line_onclick l :
  PyStr.contains "onclick=" l = true -> skip_line noise_patterns l = true.
Proof.
  intros H.
  apply (skip_line_word "onclick"
           ["onload"; "onclick"; "onmouseover"; "onmouseout"; "onsubmit";
            "onfocus"; "onblur"]).
  - in_list.
  - in_list.
  - by apply (contains_app_l "onclick" "=").
Qed.

Lemma skip_line_javascript l :
  PyStr.contains "javascript:" l = true -> skip_line noise_patterns l = true.
Proof.
  intros H.
  apply (skip_line_word "javascript:" ["javascript:"]); [in_list|in_list|done].
Qed.

Lemma skip_line_id l :
  PyStr.contains "id=" l = true -> skip_line noise_patterns l = true.
Proof.
  intros H. apply (skip_line_word "id=" ["id="]); [in_list|in_list|done].
Qed.

(** The successful runs of the [try] block, stage by stage. *)
Lemma filtered_result_ok html_content url lines :
  filtered_result html_content url = Ok lines ->
  exists parsed_html result,
    html5lib_parse html_content = Ok parsed_html
    /\ prefilter parsed_html url = Ok result
    /\ lines = filter_lines noise_patterns result.
Proof.
  unfold filtered_result, bind. intros H.
  destruct (html5lib_parse html_content) as [parsed|e]; [|done].
  destruct (prefilter parsed url) as [result|e] eqn:E; [|done].
  exists parsed, result. injection H as <-. auto.
Qed.

Lemma prefilter_ok parsed_html url result :
  prefilter parsed_html url = Ok result ->
  exists c, content parsed_html = Ok c
            /\ result = metadata parsed_html url ++ [""] ++ c.
Proof.
  unfold prefilter, bind. intros H.
  destruct (content parsed_html) as [c|e] eqn:E; [|done].
  exists c. injection H as <-. auto.
Qed.

(** A word without a line feed that occurs in the joined text occurs in
    one of the joined lines. *)
Lemma contains_char_cons c x w :
  PyStr.contains (String c "") (String x w) = false ->
  Ascii.eqb x c = false /\ PyStr.contains (String c "") w = false.
Proof.
  cbn [PyStr.contains PyStr.startswith]. rewrite (Ascii.eqb_sym c x).
  destruct (Ascii.eqb x c); [done|]. by destruct w.
Qed.

Lemma startswith_before_char c w a b :
  PyStr.contains (String c "") w = false ->
  PyStr.startswith w (a +:+ String c b) = true ->
  PyStr.startswith w a = true.
Proof.
  revert a. induction w as [|x w IH]; intros a Hw H; [by destruct a|].
  apply contains_char_cons in Hw as [Hx Hw].
  destruct a as [|y a].
  - change ("" +:+ String c b) with (String c b) in H.
    cbn [PyStr.startswith] in H. by rewrite Hx in H.
  - change (String y a +:+ String c b) with (String y (a +:+ String c b)) in H.
    cbn [PyStr.startswith] in *.
    destruct (Ascii.eqb x y); [by apply IH|done].
Qed.

Lemma contains_around_char c w a b :
  PyStr.contains (String c "") w = false ->
  PyStr.contains w (a +:+ String c b) = true ->
  PyStr.contains w a = true \/ PyStr.contains w b = true.
Proof.
  intros Hw. induction a as [|y a IH]; intros H.
  - destruct w as [|x w]; [by left|].
    apply contains_char_cons in Hw as [Hx Hw].
    change ("" +:+ String c b) with (String c b) in H.
    cbn [PyStr.contains PyStr.startswith] in H.
    rewrite Hx in H. by right.
  - change (String y a +:+ String c b) with (String y (a +:+ String c b)) in H.
    cbn [PyStr.contains] in H.
    apply orb_true_iff in H as [H|H].
    + left. cbn [PyStr.contains]. apply orb_true_iff. left.
      by apply (startswith_before_char c w (String y a) b).
    + destruct (IH H) as [H'|H']; [left|by right].
      by apply contains_cons.
Qed.

Lemma contains_join w ls :
  PyStr.contains PyStr.nl w = false ->
  PyStr.contains w (PyStr.join PyStr.nl ls) = true ->
  ls = [] \/ exists l, l ∈ ls /\ PyStr.contains w l = true.
Proof.
  intros Hw. induction ls as [|l ls IH]; [by left|]. intros H. right.
  destruct ls as [|l' ls].
  - exists l. split; [apply list_elem_of_here|done].
  - change (PyStr.join PyStr.nl (l :: l' :: ls))
      with (l +:+ String (ascii_of_nat 10) (PyStr.join PyStr.nl (l' :: ls))) in H.
    apply contains_around_char in H as [H|H]; [| |done].
    + exists l. split; [apply list_elem_of_here|done].
    + destruct (IH H) as [?|(m & Hm & Hc)]; [done|].
      exists m. split; [by apply list_elem_of_further|done].
Qed.

Lemma not_contains_join w ls :
  PyStr.contains PyStr.nl w = false ->
  PyStr.nonempty w = true ->
  (forall l, l ∈ ls -> PyStr.contains w l = false) ->
  PyStr.contains w (PyStr.join PyStr.nl ls) = false.
Proof.
  intros Hnl Hw Hls.
  destruct (PyStr.contains w (PyStr.join PyStr.nl ls)) eqn:E; [|done].
  destruct (contains_join w ls Hnl E) as [->|(l & Hl & Hc)].
  - by destruct w.
  - rewrite (Hls l Hl) in Hc. done.
Qed.

(** C5, amended. On every run of the extractor on which parsing and
    traversal do not raise, a line of the document before the filter is
    kept iff no noise pattern matches it: the kept lines are the lines no
    pattern matches, in their order; the decision is the disjunction over
    the patterns and is the same for every reordering of the pattern list;
    no kept line, and so no part of the returned text, contains "onclick="
    or "javascript:". The error document of the other runs does not go
    through the filter. *)
Theorem noise_filter_keeps_the_unmatched_lines html_content url lines :
  filtered_result html_content url = Ok lines ->
  exists parsed_html result,
    html5lib_parse html_content = Ok parsed_html
    /\ prefilter parsed_html url = Ok result
    /\ _parse_html_impl html_content url = PyStr.join PyStr.nl lines
    /\ lines
       = List.filter
           (fun l => negb (existsb (fun p => search p l) noise_patterns))
           result
    /\ (forall l, l ∈ lines
          <-> l ∈ result /\ forall p, p ∈ noise_patterns -> search p l = false)
    /\ (forall ps, ps ≡ₚ noise_patterns -> filter_lines ps result = lines)
    /\ (forall l, l ∈ lines ->
          PyStr.contains "onclick=" l = false
          /\ PyStr.contains "javascript:" l = false)
    /\ PyStr.contains "onclick=" (_parse_html_impl html_content url) = false
    /\ PyStr.contains "javascript:" (_parse_html_impl html_content url) = false.
Proof.
  intros H.
  assert (Himpl : _parse_html_impl html_content url = PyStr.join PyStr.nl lines).
  { unfold _parse_html_impl, parse_try. by rewrite H. }
  destruct (filtered_result_ok _ _ _ H) as (parsed & result & Hp & Hr & ->).
  assert (Hclean : forall l, l ∈ filter_lines noise_patterns result ->
            PyStr.contains "onclick=" l = false
            /\ PyStr.contains "javascript:" l = false).
  { intros l [_ Hl]%elem_of_filter_lines. split.
    - destruct (PyStr.contains "onclick=" l) eqn:E; [|done].
      apply skip_line_onclick in E. congruence.
    - destruct (PyStr.contains "javascript:" l) eqn:E; [|done].
      apply skip_line_javascript in E. congruence. }
  exists parsed, result. repeat split; try done.
  - rewrite filter_lines_filter. apply List.filter_ext.
    intros l. by rewrite skip_line_existsb.
  - by apply elem_of_filter_lines in H0 as [? _].
  - apply elem_of_filter_lines in H0 as [_ Hs]. intros p Hp'.
    destruct (search p l) eqn:E; [|done].
    assert (skip_line noise_patterns l = true); [|congruence].
    apply skip_line_true. eauto.
  - intros [Hin Hno]. apply elem_of_filter_lines. split; [done|].
    destruct (skip_line noise_patterns l) eqn:E; [|done].
    apply skip_line_true in E as (p & Hp' & Hs). rewrite Hno in Hs; done.
  - intros ps HP. by apply filter_lines_perm.
  - by apply Hclean.
  - by apply Hclean.
  - rewrite Himpl. apply not_contains_join; [done|done|].
    intros l Hl. by apply Hclean.
  - rewrite Himpl. apply not_contains_join; [done|done|].
    intros l Hl. by apply Hclean.
Qed.

(** C10. The filter runs over the metadata lines too: a metadata line is
    in the returned document iff no noise pattern matches it. When the URL
    contains "id=" or "javascript:" the "URL: ..." line is dropped, and
    when the title does, the "Title: ..." line is dropped. *)
Theorem noise_filter_drops_metadata_lines html_content url parsed_html lines :
  html5lib_parse html_content = Ok parsed_html ->
  filtered_result html_content url = Ok lines ->
  (forall l, l ∈ metadata parsed_html url ->
     (l ∈ lines <-> skip_line noise_patterns l = false))
  /\ "URL: " +:+ url ∈ metadata parsed_html url
  /\ (PyStr.contains "id=" url = true \/ PyStr.contains "javascript:" url = true ->
      "URL: " +:+ url ∉ lines)
  /\ (forall t,
        PyStr.contains "id=" t = true \/ PyStr.contains "javascript:" t = true ->
        "Title: " +:+ t ∉ lines).
Proof.
  intros Hp H.
  destruct (filtered_result_ok _ _ _ H) as (parsed & result & Hp' & Hr & ->).
  assert (parsed = parsed_html) as -> by congruence.
  destruct (prefilter_ok _ _ _ Hr) as (c & _ & ->).
  assert (Hdrop : forall pre x,
            PyStr.contains "id=" x = true \/ PyStr.contains "javascript:" x = true ->
            pre +:+ x ∉ filter_lines noise_patterns
                           (metadata parsed_html url ++ [""] ++ c)).
  { intros pre x Hx [_ Hs]%elem_of_filter_lines.
    assert (skip_line noise_patterns (pre +:+ x) = true); [|congruence].
    apply skip_line_prepend.
    destruct Hx; [by apply skip_line_id|by apply skip_line_javascript]. }
  repeat split.
  - by intros [_ ?]%elem_of_filter_lines.
  - intros Hs. apply elem_of_filter_lines. split; [|done].
    apply elem_of_app. by left.
  - unfold metadata. rewrite !elem_of_app. right. right. apply list_elem_of_here.
  - apply Hdrop.
  - intros t. apply Hdrop.
Qed.

(** C3. Extraction of a non-empty page does not raise: [parse_html] ends
    with the text [_parse_html_impl] returns. An exception of the parser or
    of the traversal is an exception of the [try] block, and for each of
    those the returned text is the line "URL: <url>", an empty line and the
    line "Error parsing content: <message>"; it is not empty. *)
Theorem extraction_errors_are_caught html_content url :
  html_content <> "" ->
  (finish (parse_html (Some html_content) url)).2
  = Ok (_parse_html_impl html_content url)
  /\ (forall e, html5lib_parse html_content = Raise e ->
        parse_try html_content url = Raise e)
  /\ (forall parsed_html e,
        html5lib_parse html_content = Ok parsed_html ->
        process_element recursion_budget ∅ (body_of parsed_html) 0 = Raise e ->
        parse_try html_content url = Raise e)
  /\ (forall e, parse_try html_content url = Raise e ->
        _parse_html_impl html_content url
        = PyStr.join PyStr.nl
            ["URL: " +:+ url; ""; "Error parsing content: " +:+ exn_str e]
        /\ _parse_html_impl html_content url <> "").
Proof.
  intros Hne. repeat split.
  - unfold parse_html. destruct html_content; [done|]. reflexivity.
  - intros e He. unfold parse_try, filtered_result, bind. by rewrite He.
  - intros parsed e Hp He.
    unfold parse_try, filtered_result, prefilter, content, bind.
    by rewrite Hp, He.
  - unfold _parse_html_impl. rewrite H. reflexivity.
  - unfold _parse_html_impl. rewrite H. done.
Qed.

(** C9. For [None] and for the empty string [parse_html] returns the empty
    string at once: the coroutine has no [await], so [_parse_html_impl] and
    the parser are not called, whatever the parser is. *)
Theorem parse_html_of_nothing_is_empty url :
  parse_html None url = Return ""
  /\ parse_html (Some "") url = Return ""
  /\ finish (parse_html None url) = ([], Ok "")
  /\ finish (parse_html (Some "") url) = ([], Ok "").
Proof. by repeat split. Qed.


(** ** Facts about [strip] *)

Lemma lstrip_no_leading_space s : no_leading_space (PyStr.lstrip s).
Proof.
  induction s as [|c s IH]; [done|]. cbn [PyStr.lstrip].
  destruct (PyStr.isspace c) eqn:E; [done|]. exact E.
Qed.

Lemma rstrip_no_leading_space s :
  no_leading_space s -> no_leading_space (PyStr.rstrip s).
Proof.
  destruct s as [|c s]; [done|]. intros Hc. cbn [PyStr.rstrip].
  destruct (PyStr.rstrip s); [|exact Hc].
  unfold no_leading_space in Hc. rewrite Hc. exact Hc.
Qed.

Lemma lstrip_fixed s : no_leading_space s -> PyStr.lstrip s = s.
Proof.
  destruct s as [|c s]; [done|]. intros Hc. cbn [PyStr.lstrip].
  unfold no_leading_space in Hc. by rewrite Hc.
Qed.

Lemma lstrip_strip t : PyStr.lstrip (PyStr.strip t) = PyStr.strip t.
Proof.
  apply lstrip_fixed, rstrip_no_leading_space, lstrip_no_leading_space.
Qed.

Lemma lstrip_app_blank a s :
  PyStr.lstrip a = "" -> PyStr.lstrip (a +:+ s) = PyStr.lstrip s.
Proof.
  induction a as [|c a IH]; [done|].
  change (String c a +:+ s) with (String c (a +:+ s)).
  cbn [PyStr.lstrip]. destruct (PyStr.isspace c); [exact IH|done].
Qed.

Lemma lstrip_indent n : PyStr.lstrip (PyStr.repeat "  " n) = "".
Proof. induction n as [|n IH]; [done|]. exact IH. Qed.

Lemma line_key_indented indent t :
  PyStr.lstrip indent = "" ->
  line_key (indent +:+ PyStr.strip t) = hash (PyStr.strip t).
Proof.
  intros H. unfold line_key. by rewrite lstrip_app_blank, lstrip_strip.
Qed.

(** ** The traversal keeps the first occurrences of the candidates *)

Lemma first_occurrences_app seen a b :
  first_occurrences seen (a ++ b)
  = ((first_occurrences seen a).1
       ++ (first_occurrences (first_occurrences seen a).2 b).1,
     (first_occurrences (first_occurrences seen a).2 b).2).
Proof.
  revert seen. induction a as [|l a IH]; intros seen.
  - cbn [app first_occurrences fst snd]. by destruct (first_occurrences seen b).
  - cbn [app first_occurrences].
    destruct (bool_decide (line_key l ∈ seen)); [apply IH|].
    cbn [fst snd]. by rewrite IH.
Qed.

Lemma emit_text_first_occurrences indent o st :
  PyStr.lstrip indent = "" ->
  emit_text indent o st
  = (st.1 ++ (first_occurrences st.2 (candidate indent o)).1,
     (first_occurrences st.2 (candidate indent o)).2).
Proof.
  intros Hi. destruct st as [acc seen]. unfold emit_text, candidate.
  destruct o as [t|]; cbn [fst snd first_occurrences];
    [|by rewrite app_nil_r].
  destruct (PyStr.nonempty t && PyStr.nonempty (PyStr.strip t));
    cbn [fst snd first_occurrences]; [|by rewrite app_nil_r].
  rewrite (line_key_indented _ _ Hi).
  destruct (bool_decide (hash (PyStr.strip t) ∈ seen));
    cbn [fst snd]; [by rewrite app_nil_r|done].
Qed.

Lemma for_children_first_occurrences process_child child_candidates indent :
  PyStr.lstrip indent = "" ->
  (forall seen child,
     process_child seen child
     = (r <- child_candidates child ;; Ok (first_occurrences seen r))) ->
  forall cs st,
    for_children process_child indent cs st
    = (r <- children_candidates child_candidates indent cs ;;
       Ok (st.1 ++ (first_occurrences st.2 r).1,
           (first_occurrences st.2 r).2)).
Proof.
  intros Hi Hchild. induction cs as [|child rest IH]; intros [acc seen].
  - cbn. by rewrite app_nil_r.
  - cbn [for_children children_candidates].
    destruct (should_skip_element child).
    + cbn [bind]. rewrite IH, emit_text_first_occurrences by done.
      destruct (children_candidates child_candidates indent rest) as [b|e];
        cbn [bind fst snd]; [|done].
      rewrite !first_occurrences_app. cbn [fst snd].
      by rewrite <- !app_assoc.
    + rewrite Hchild. cbn [fst snd].
      destruct (child_candidates child) as [a|e]; cbn [bind]; [|done].
      rewrite IH, emit_text_first_occurrences by done.
      destruct (children_candidates child_candidates indent rest) as [b|e];
        cbn [bind fst snd]; [|done].
      rewrite !first_occurrences_app. cbn [fst snd].
      by rewrite <- !app_assoc.
Qed.

Lemma process_element_first_occurrences fuel :
  forall seen el indentation,
    process_element fuel seen el indentation
    = (r <- candidate_lines fuel el indentation ;;
       Ok (first_occurrences seen r)).
Proof.
  induction fuel as [|fuel IH]; intros seen el indentation; [done|].
  cbn [process_element candidate_lines].
  rewrite (for_children_first_occurrences _
             (fun child => candidate_lines fuel child (S indentation)));
    [|apply lstrip_indent|intros; apply IH].
  rewrite emit_text_first_occurrences by apply lstrip_indent.
  cbn [fst snd app].
  destruct (children_candidates _ _ _) as [r|e]; cbn [bind]; [|done].
  by rewrite first_occurrences_app.
Qed.


Lemma first_occurrences_first seen ls l :
  l ∈ (first_occurrences seen ls).1 ->
  (line_key l ∉ seen)
  /\ exists pre post,
       ls = pre ++ l :: post
       /\ forall l', l' ∈ pre -> line_key l' <> line_key l.
Proof.
  revert seen. induction ls as [|x ls IH]; intros seen Hl.
  - by apply elem_of_nil in Hl.
  - cbn [first_occurrences] in Hl. case_bool_decide as Hx.
    + destruct (IH _ Hl) as (Hk & pre & post & -> & Hpre).
      split; [done|]. exists (x :: pre), post. split; [done|].
      intros l' [->|Hin]%elem_of_cons; [congruence|by apply Hpre].
    + cbn [fst] in Hl. apply elem_of_cons in Hl as [->|Hl].
      * split; [done|]. exists [], ls. split; [done|].
        intros l' Hin. by apply elem_of_nil in Hin.
      * destruct (IH _ Hl) as (Hk & pre & post & -> & Hpre).
        split; [intros ?; apply Hk, elem_of_union; by right|].
        exists (x :: pre), post. split; [done|].
        intros l' [->|Hin]%elem_of_cons; [|by apply Hpre].
        intros E. apply Hk, elem_of_union. left. by apply elem_of_singleton.
Qed.

Lemma first_occurrences_NoDup seen ls :
  NoDup (line_key <$> (first_occurrences seen ls).1).
Proof.
  revert seen. induction ls as [|x ls IH]; intros seen; [constructor|].
  cbn [first_occurrences]. case_bool_decide as Hx; [apply IH|].
  cbn [fst fmap list_fmap]. constructor; [|apply IH].
  intros (l & Hk & Hl)%list_elem_of_fmap.
  apply first_occurrences_first in Hl as [Hl _].
  apply Hl, elem_of_union. left. by apply elem_of_singleton.
Qed.

Lemma first_occurrences_covers seen ls l :
  l ∈ ls ->
  line_key l ∈ seen
  \/ exists l', l' ∈ (first_occurrences seen ls).1 /\ line_key l' = line_key l.
Proof.
  revert seen. induction ls as [|x ls IH]; intros seen Hl.
  - by apply elem_of_nil in Hl.
  - cbn [first_occurrences]. apply elem_of_cons in Hl as [->|Hl].
    + case_bool_decide as Hx; [by left|]. right. exists x.
      split; [apply list_elem_of_here|done].
    + case_bool_decide as Hx; [by apply IH|].
      destruct (IH ({[line_key x]} ∪ seen) Hl) as [Hin|(l' & Hin & Hk)].
      * apply elem_of_union in Hin as [Hin%elem_of_singleton|Hin]; [|by left].
        right. exists x. split; [apply list_elem_of_here|done].
      * right. exists l'. split; [by apply list_elem_of_further|done].
Qed.

Lemma first_occurrences_sublist seen ls :
  sublist (first_occurrences seen ls).1 ls.
Proof.
  revert seen. induction ls as [|x ls IH]; intros seen; [constructor|].
  cbn [first_occurrences]. case_bool_decide.
  - by apply sublist_cons.
  - by apply sublist_skip.
Qed.

Lemma filter_lines_sublist ps ls : sublist (filter_lines ps ls) ls.
Proof.
  induction ls as [|l ls IH]; [constructor|]. cbn [filter_lines].
  destruct (skip_line ps l); [by apply sublist_cons|by apply sublist_skip].
Qed.

Lemma NoDup_filter_lines ps ls : NoDup ls -> NoDup (filter_lines ps ls).
Proof. intros H. eapply sublist_NoDup; [done|apply filter_lines_sublist]. Qed.

(** ** The metadata lines are pairwise distinct *)

Lemma title_lines_cases parsed_html :
  title_lines parsed_html = []
  \/ exists x, title_lines parsed_html = ["Title: " +:+ x].
Proof.
  unfold title_lines. destruct (find "title" parsed_html) as [te|]; [|by left].
  destruct (text te) as [t|]; [|by left].
  destruct (PyStr.nonempty t); [right; eauto|by left].
Qed.

Lemma description_lines_cases metas :
  description_lines metas = []
  \/ exists x, description_lines metas = ["Description: " +:+ x].
Proof.
  induction metas as [|m metas IH]; [by left|]. cbn [description_lines].
  destruct (_ && _); [right; eauto|exact IH].
Qed.

Lemma NoDup_metadata parsed_html url :
  NoDup (metadata parsed_html url ++ [""]).
Proof.
  unfold metadata.
  destruct (title_lines_cases parsed_html) as [->|[x ->]];
    destruct (description_lines_cases (findall "meta" parsed_html))
      as [->|[y ->]];
    cbn [app]; repeat constructor;
    rewrite ?elem_of_cons, ?elem_of_nil; intros H;
    repeat (destruct H as [H|H]); try done;
    by (cbv [String.append] in H).
Qed.


(** The body of the document before the filter. *)
Lemma content_first_occurrences parsed_html c :
  content parsed_html = Ok c ->
  exists candidates,
    candidate_lines recursion_budget (body_of parsed_html) 0 = Ok candidates
    /\ c = (first_occurrences ∅ candidates).1.
Proof.
  unfold content. rewrite process_element_first_occurrences.
  destruct (candidate_lines _ _ _) as [cands|e]; cbn [bind]; [|done].
  intros [= <-]. by exists cands.
Qed.

Lemma NoDup_line_keys (ls : list string) :
  NoDup (line_key <$> ls) -> NoDup (PyStr.lstrip <$> ls).
Proof.
  unfold line_key. intros H.
  apply (NoDup_fmap_1 hash). by rewrite <- list_fmap_compose.
Qed.

(** C4, amended. The body lines are the candidate lines of the traversal
    from which every line is removed whose trimmed text hashes like that
    of an earlier candidate. So no two body lines carry the same trimmed
    text, no two body lines are equal, the line emitted for a text is its
    first candidate, and every candidate is represented. The metadata
    lines and the separator are pairwise distinct too, but they are not
    part of the deduplication: the returned document is the filtered
    metadata followed by the filtered body. *)
Theorem body_lines_are_first_occurrences html_content url lines :
  filtered_result html_content url = Ok lines ->
  exists parsed_html candidates body,
    html5lib_parse html_content = Ok parsed_html
    /\ candidate_lines recursion_budget (body_of parsed_html) 0 = Ok candidates
    /\ content parsed_html = Ok body
    /\ body = (first_occurrences ∅ candidates).1
    /\ lines = filter_lines noise_patterns (metadata parsed_html url ++ [""])
               ++ filter_lines noise_patterns body
    /\ NoDup (PyStr.lstrip <$> body)
    /\ NoDup body
    /\ NoDup (filter_lines noise_patterns body)
    /\ NoDup (filter_lines noise_patterns (metadata parsed_html url ++ [""]))
    /\ sublist body candidates
    /\ (forall l, l ∈ body ->
          exists pre post,
            candidates = pre ++ l :: post
            /\ forall l', l' ∈ pre -> line_key l' <> line_key l)
    /\ (forall l, l ∈ candidates ->
          exists l', l' ∈ body /\ line_key l' = line_key l).
Proof.
  intros H.
  destruct (filtered_result_ok _ _ _ H) as (parsed & result & Hp & Hr & ->).
  destruct (prefilter_ok _ _ _ Hr) as (c & Hc & ->).
  destruct (content_first_occurrences _ _ Hc) as (cands & Hcands & ->).
  assert (Hkeys := first_occurrences_NoDup ∅ cands).
  assert (Hnd : NoDup (first_occurrences ∅ cands).1).
  { apply (NoDup_fmap_1 PyStr.lstrip). by apply NoDup_line_keys. }
  exists parsed, cands, (first_occurrences ∅ cands).1.
  repeat split; try done.
  - by rewrite app_assoc, filter_lines_app.
  - by apply NoDup_line_keys.
  - by apply NoDup_filter_lines.
  - apply NoDup_filter_lines, NoDup_metadata.
  - apply first_occurrences_sublist.
  - intros l Hl. by apply first_occurrences_first in Hl as [_ ?].
  - intros l Hl.
    destruct (first_occurrences_covers ∅ cands l Hl) as [Hin|?]; [|done].
    by apply not_elem_of_empty in Hin.
Qed.

(** C8, amended. With a source URL whose line no noise pattern matches,
    the document of the end-to-end scenario is extracted to four lines:
    "Title: T", "URL: <url>", an empty line, and one line "  Hi", which is
    "Hi" behind the two spaces of depth one. The second "Hi" is dropped. *)
Theorem end_to_end_document url :
  html5lib_parse hi_html = Ok hi_tree ->
  2 <= recursion_budget ->
  skip_line noise_patterns ("URL: " +:+ url) = false ->
  _parse_html_impl hi_html url
  = PyStr.join PyStr.nl ["Title: T"; "URL: " +:+ url; ""; "  Hi"].
Proof.
  intros Hp Hb Hu.
  destruct recursion_budget as [|[|fuel]] eqn:Hfuel; [lia|lia|].
  unfold _parse_html_impl, parse_try, filtered_result, prefilter, content.
  rewrite Hp, Hfuel. cbn [bind].
  rewrite process_element_first_occurrences.
  change (candidate_lines (S (S fuel)) (body_of hi_tree) 0)
    with (@Ok (list string) ["  Hi"; "  Hi"]).
  cbn [bind first_occurrences].
  rewrite bool_decide_eq_false_2 by apply not_elem_of_empty.
  rewrite bool_decide_eq_true_2
    by (apply elem_of_union; left; by apply elem_of_singleton).
  change (metadata hi_tree url) with ["Title: T"; "URL: " +:+ url].
  cbn [fst app filter_lines].
  change (skip_line noise_patterns "Title: T") with false.
  change (skip_line noise_patterns "") with false.
  change (skip_line noise_patterns "  Hi") with false.
  by rewrite Hu.
Qed.


(** ** The event loop *)

Lemma gather_ok {A} (sched : list nat) :
  forall (tasks : list (coro A)) (vals : list A) tr,
    Forall2 (fun c v => (finish c).2 = Ok v) tasks vals ->
    (gather sched tasks tr).1 = Ok vals.
Proof.
  induction sched as [|j sched IH]; intros tasks vals tr H.
  - cbn [gather]. revert tr.
    induction H as [|c v tasks vals Hc H IHd]; intros tr; [done|].
    cbn [drain]. rewrite Hc.
    specialize (IHd (tr ++ (finish c).1)).
    destruct (drain tasks (tr ++ (finish c).1)) as [[l|e] tr'];
      cbn [fst] in *; congruence.
  - cbn [gather]. destruct (tasks !! j) as [[a|e|ev k]|] eqn:Hj;
      try by apply IH.
    + destruct (Forall2_lookup_l _ _ _ _ _ H Hj) as (v & _ & Hv). done.
    + apply IH.
      destruct (Forall2_lookup_l _ _ _ _ _ H Hj) as (v & Hv & Hf).
      rewrite <- (list_insert_id vals j v Hv).
      by apply Forall2_insert.
Qed.

Lemma appends_drain {A} P (tasks : list (coro A)) :
  Forall (fun c => Forall P (finish c).1) tasks -> appends P (drain tasks).
Proof.
  induction 1 as [|c tasks Hc H IH]; intros tr.
  - exists []. by rewrite app_nil_r.
  - cbn [drain]. destruct (finish c).2.
    + destruct (IH (tr ++ (finish c).1)) as (evs & Hevs & HP).
      exists ((finish c).1 ++ evs).
      split; [|by apply Forall_app].
      destruct (drain tasks (tr ++ (finish c).1)) as [[l|e] tr'];
        cbn [snd] in *; by rewrite Hevs, app_assoc.
    + by exists (finish c).1.
Qed.

Lemma appends_gather {A} P (sched : list nat) :
  forall tasks : list (coro A),
    Forall (fun c => Forall P (finish c).1) tasks ->
    appends P (gather sched tasks).
Proof.
  induction sched as [|j sched IH]; intros tasks H; [by apply appends_drain|].
  cbn [gather]. destruct (tasks !! j) as [[a|e|ev k]|] eqn:Hj;
    try by apply IH.
  - intros tr. exists []. by rewrite app_nil_r.
  - assert (Hk : Forall P (ev :: (finish k).1)).
    { exact (proj1 (Forall_lookup _ _) H j _ Hj). }
    apply Forall_cons in Hk as [Hev Hk].
    intros tr.
    destruct (IH (<[j:=k]> tasks) (Forall_insert _ _ _ _ H Hk) (tr ++ [ev]))
      as (evs & Hevs & HP).
    exists (ev :: evs). split; [|by constructor].
    by rewrite Hevs, <- app_assoc.
Qed.

Lemma appends_ret {A} P (a : A) : appends P (io_ret a).
Proof. intros tr. exists []. by rewrite app_nil_r. Qed.

Lemma appends_raise {A} P e : appends P (@io_raise A e).
Proof. intros tr. exists []. by rewrite app_nil_r. Qed.

Lemma appends_lift {A} P (r : result A) : appends P (io_lift r).
Proof. intros tr. exists []. by rewrite app_nil_r. Qed.

Lemma appends_emit (P : event -> Prop) ev : P ev -> appends P (io_emit ev).
Proof. intros H tr. exists [ev]. split; [done|by constructor]. Qed.

Lemma appends_bind {A C} P (m : io A) (k : A -> io C) :
  appends P m -> (forall a, appends P (k a)) -> appends P (io_bind m k).
Proof.
  intros Hm Hk tr. unfold io_bind.
  destruct (Hm tr) as (evs & Hevs & HP).
  destruct (m tr) as [[a|e] tr']; cbn [snd] in Hevs; subst tr'.
  - destruct (Hk a (tr ++ evs)) as (evs' & Hevs' & HP').
    exists (evs ++ evs'). split; [by rewrite Hevs', app_assoc|by apply Forall_app].
  - by exists evs.
Qed.


(** ** The stages of [process_urls] *)

Lemma create_contexts_ok n :
  (forall k, new_context B k = None) ->
  forall k tr,
    create_contexts k n tr = (Ok (seq k n), tr ++ (NewContext <$> seq k n)).
Proof.
  intros H. induction n as [|n IH]; intros k tr; cbn [create_contexts].
  - unfold io_ret. by rewrite app_nil_r.
  - rewrite H. unfold io_bind, io_emit, io_ret. rewrite IH.
    cbn [seq fmap list_fmap]. by rewrite <- app_assoc.
Qed.

Lemma make_fetch_tasks_ok n urls :
  (0 < n)%nat ->
  forall i,
    make_fetch_tasks i urls (seq 0 n)
    = Ok (imap (fun j url => fetch_page url ((i + j) mod n)%nat) urls).
Proof.
  intros Hn. induction urls as [|url urls IH]; intros i; [done|].
  cbn [make_fetch_tasks imap]. rewrite length_seq.
  destruct (Nat.eqb_spec n 0) as [->|_]; [lia|].
  rewrite lookup_seq_lt by (apply Nat.mod_upper_bound; lia).
  rewrite IH. cbn [bind]. rewrite Nat.add_0_r, Nat.add_0_l.
  do 2 f_equal. apply imap_ext. intros j x _. cbn.
  by rewrite <- Nat.add_succ_comm.
Qed.

Lemma finish_fetch_page_ok url context :
  pool_ok ->
  finish (fetch_page url context)
  = ([NewPage context url; Navigate context url; PageClose context url],
     Ok (fetched context url)).
Proof.
  intros (_ & _ & Hnp & Hpc & _). unfold fetch_page.
  by rewrite Hnp, Hpc.
Qed.

Lemma finish_parse_html html_content url :
  (finish (parse_html html_content url)).2 = Ok (extraction html_content url).
Proof.
  unfold parse_html, extraction. by destruct (PyStr.truthy html_content).
Qed.

Lemma fetch_page_events urls n i url :
  urls !! i = Some url ->
  Forall (page_event urls n) (finish (fetch_page url (i mod n)%nat)).1.
Proof.
  intros Hi.
  assert (He : exists j, urls !! j = Some url /\ (i mod n = j mod n)%nat)
    by eauto.
  unfold fetch_page.
  destruct (new_page B _ url); [constructor|].
  destruct (page_close B _ url); cbn [finish fst];
    repeat (apply Forall_cons; split; [exact He|]); constructor.
Qed.

Lemma parse_html_events urls n html_content url :
  url ∈ urls ->
  Forall (page_event urls n) (finish (parse_html html_content url)).1.
Proof.
  intros Hu. unfold parse_html.
  destruct (PyStr.truthy html_content); cbn; by repeat constructor.
Qed.

Lemma Forall2_imap {X Y Z} (R : Y -> Z -> Prop) (l : list X) :
  forall (f : nat -> X -> Y) (g : nat -> X -> Z),
    (forall i x, l !! i = Some x -> R (f i x) (g i x)) ->
    Forall2 R (imap f l) (imap g l).
Proof.
  induction l as [|x l IH]; intros f g H; [constructor|].
  cbn [imap]. constructor; [by apply (H 0%nat)|].
  apply IH. intros i y Hy. by apply (H (S i)).
Qed.

Lemma Forall_imap {X Y} (P : Y -> Prop) (l : list X) :
  forall f : nat -> X -> Y,
    (forall i x, l !! i = Some x -> P (f i x)) -> Forall P (imap f l).
Proof.
  induction l as [|x l IH]; intros f H; [constructor|].
  cbn [imap]. constructor; [by apply (H 0%nat)|].
  apply IH. intros i y Hy. by apply (H (S i)).
Qed.

Lemma Forall2_parse_tasks (html_contents : list (option string)) :
  forall urls,
    Forall2 (fun c v => (finish c).2 = Ok v)
      (zip_with parse_html html_contents urls)
      (zip_with extraction html_contents urls).
Proof.
  induction html_contents as [|o os IH]; intros [|url urls]; cbn;
    constructor; [apply finish_parse_html|apply IH].
Qed.

Lemma Forall_parse_tasks urls0 n (html_contents : list (option string)) :
  forall urls,
    urls ⊆ urls0 ->
    Forall (fun c => Forall (page_event urls0 n) (finish c).1)
      (zip_with parse_html html_contents urls).
Proof.
  induction html_contents as [|o os IH]; intros [|url urls] Hsub; cbn;
    constructor.
  - apply parse_html_events, Hsub, list_elem_of_here.
  - apply IH. intros u Hu. by apply Hsub, list_elem_of_further.
Qed.

(** The tasks of lines 194-198 for a pool of [n] contexts. *)
Lemma make_fetch_tasks_pool urls n :
  urls = [] \/ (0 < n)%nat ->
  make_fetch_tasks 0 urls (seq 0 n)
  = Ok (imap (fun i url => fetch_page url (i mod n)%nat) urls).
Proof.
  intros [->|Hn]; [done|]. by rewrite make_fetch_tasks_ok.
Qed.

Lemma fetch_and_parse_ok sched_fetch sched_parse urls n tr :
  pool_ok ->
  urls = [] \/ (0 < n)%nat ->
  (fetch_and_parse sched_fetch sched_parse urls (seq 0 n) tr).1
  = Ok (zip_with extraction
          (imap (fun i url => fetched (i mod n)%nat url) urls) urls).
Proof.
  intros Hok Hn. unfold fetch_and_parse, io_bind, io_lift.
  rewrite (make_fetch_tasks_pool _ _ Hn).
  pose proof (gather_ok sched_fetch
                (imap (fun i url => fetch_page url (i mod n)%nat) urls)
                (imap (fun i url => fetched (i mod n)%nat url) urls) tr) as G.
  destruct (gather sched_fetch _ tr) as [[hc|e] tr1]; cbn [fst] in G.
  - assert (hc = imap (fun i url => fetched (i mod n)%nat url) urls) as ->.
    { assert (Ok hc = Ok (imap (fun i url => fetched (i mod n)%nat url) urls))
        as [= ->]; [|done].
      apply G, Forall2_imap. intros i x _.
      by rewrite finish_fetch_page_ok. }
    apply gather_ok, Forall2_parse_tasks.
  - assert (Raise e = Ok (imap (fun i url => fetched (i mod n)%nat url) urls));
      [|done].
    apply G, Forall2_imap. intros i x _. by rewrite finish_fetch_page_ok.
Qed.

Lemma appends_fetch_and_parse sched_fetch sched_parse urls n :
  urls = [] \/ (0 < n)%nat ->
  appends (page_event urls n)
    (fetch_and_parse sched_fetch sched_parse urls (seq 0 n)).
Proof.
  intros Hn tr. unfold fetch_and_parse.
  unfold io_bind at 1. unfold io_lift.
  rewrite (make_fetch_tasks_pool _ _ Hn).
  apply appends_bind.
  - apply appends_gather, Forall_imap. intros i url Hi.
    by apply fetch_page_events.
  - intros html_contents. by apply appends_gather, Forall_parse_tasks.
Qed.

Lemma close_contexts_ok cs tr :
  (forall c, context_close B c = None) ->
  close_contexts cs tr = (Ok tt, tr ++ (ContextClose <$> cs)).
Proof.
  intros H. revert tr. induction cs as [|c cs IH]; intros tr;
    cbn [close_contexts].
  - unfold io_ret. by rewrite app_nil_r.
  - rewrite H. unfold io_bind, io_emit. rewrite IH.
    cbn [fmap list_fmap]. by rewrite <- app_assoc.
Qed.

Lemma finally_block_ok cs tr :
  (forall c, context_close B c = None) ->
  browser_close B = None ->
  finally_block (Some cs) tr
  = (Ok tt, tr ++ (ContextClose <$> cs) ++ [BrowserClose]).
Proof.
  intros Hc Hb. unfold finally_block, io_bind.
  rewrite close_contexts_ok, Hb by done. unfold io_emit.
  by rewrite <- app_assoc.
Qed.

Lemma appends_close_contexts cs :
  appends (fun ev => is_teardown ev = true) (close_contexts cs).
Proof.
  induction cs as [|c cs IH]; cbn [close_contexts]; [apply appends_ret|].
  destruct (context_close B c); [apply appends_raise|].
  apply appends_bind; [by apply appends_emit|done].
Qed.

Lemma appends_finally_block cs :
  appends (fun ev => is_teardown ev = true) (finally_block (Some cs)).
Proof.
  unfold finally_block.
  apply appends_bind; [apply appends_close_contexts|]. intros _.
  destruct (browser_close B); [apply appends_raise|by apply appends_emit].
Qed.

Lemma pool_size_pos urls max_concurrent :
  urls = [] \/ (1 <= max_concurrent)%Z ->
  urls = [] \/ (0 < pool_size urls max_concurrent)%nat.
Proof.
  intros [->|H]; [by left|]. destruct urls as [|u urls]; [by left|right].
  unfold pool_size. cbn [length]. lia.
Qed.

(** The outcome of a batch on a backend whose pool works. *)
Lemma process_urls_ok sched_fetch sched_parse urls max_concurrent tr :
  pool_ok ->
  urls = [] \/ (1 <= max_concurrent)%Z ->
  (process_urls sched_fetch sched_parse urls max_concurrent tr).1
  = Ok (zip_with extraction
          (imap (fun i url =>
                   fetched (i mod pool_size urls max_concurrent)%nat url) urls)
          urls).
Proof.
  intros Hok Hmc. pose proof Hok as (Hl & Hnc & _ & _ & Hcc & Hbc).
  apply pool_size_pos in Hmc.
  unfold process_urls, launch_and_run, try_block. cbn [fst].
  rewrite Hl. fold (pool_size urls max_concurrent).
  rewrite create_contexts_ok by done.
  rewrite finally_block_ok by done.
  by apply fetch_and_parse_ok.
Qed.

(** The events of a batch when the browser starts and every context is
    made: the pool is set up, pages are fetched and parsed, the [finally]
    block runs, the driver stops. *)
Lemma process_urls_trace sched_fetch sched_parse urls max_concurrent tr :
  launch B = None ->
  (forall k, new_context B k = None) ->
  urls = [] \/ (1 <= max_concurrent)%Z ->
  exists mid fin,
    (process_urls sched_fetch sched_parse urls max_concurrent tr).2
    = tr ++ [PlaywrightStart; Launch]
         ++ (NewContext <$> seq 0 (pool_size urls max_concurrent))
         ++ mid ++ fin ++ [PlaywrightStop]
    /\ Forall (page_event urls (pool_size urls max_concurrent)) mid
    /\ Forall (fun ev => is_teardown ev = true) fin
    /\ ((forall c, context_close B c = None) -> browser_close B = None ->
        fin = (ContextClose <$> seq 0 (pool_size urls max_concurrent))
              ++ [BrowserClose]).
Proof.
  intros Hl Hnc Hmc. apply pool_size_pos in Hmc.
  unfold process_urls, launch_and_run, try_block. cbn [snd].
  rewrite Hl. fold (pool_size urls max_concurrent).
  rewrite create_contexts_ok by done.
  set (n := pool_size urls max_concurrent) in *.
  set (tr1 := (tr ++ [PlaywrightStart]) ++ [Launch]).
  destruct (appends_fetch_and_parse sched_fetch sched_parse urls n Hmc
              (tr1 ++ (NewContext <$> seq 0 n))) as (mid & Hmid & HPmid).
  destruct (fetch_and_parse sched_fetch sched_parse urls (seq 0 n) _)
    as [r tr2]. cbn [fst snd] in *. subst tr2.
  destruct (appends_finally_block (seq 0 n)
              ((tr1 ++ (NewContext <$> seq 0 n)) ++ mid))
    as (fin & Hfin & HPfin).
  exists mid, fin. split; [|split; [done|split; [done|]]].
  - destruct (finally_block _ _) as [[?|?] tr3]; cbn [snd] in *; subst tr3;
      subst tr1; by rewrite <- !app_assoc.
  - intros Hcc Hbc. rewrite finally_block_ok in Hfin by done.
    cbn [snd] in Hfin. by apply app_inv_head in Hfin.
Qed.


Lemma process_urls_slot urls n i url :
  urls !! i = Some url ->
  zip_with extraction (imap (fun i url => fetched (i mod n)%nat url) urls) urls
    !! i
  = Some (extraction (fetched (i mod n)%nat url) url).
Proof.
  intros Hi. rewrite lookup_zip_with, list_lookup_imap, Hi. done.
Qed.

Lemma process_urls_length urls n :
  length (zip_with extraction
            (imap (fun i url => fetched (i mod n)%nat url) urls) urls)
  = length urls.
Proof. rewrite length_zip_with, length_imap. lia. Qed.

(** C1. On a backend whose pool works, and for every bound of at least
    one, [process_urls] returns a list as long as the URL list, whatever
    the order in which the event loop resumes the fetches and the parses;
    entry [i] is what [parse_html] returns for URL [i] and for what
    [fetch_page] returned for URL [i] on its context; every other order
    gives the same list. *)
Theorem process_urls_keeps_the_order
    sched_fetch sched_parse urls max_concurrent tr :
  pool_ok ->
  (1 <= max_concurrent)%Z ->
  exists results,
    (process_urls sched_fetch sched_parse urls max_concurrent tr).1 = Ok results
    /\ length results = length urls
    /\ (forall i url,
          urls !! i = Some url ->
          exists html_content s,
            (finish (fetch_page url (i mod pool_size urls max_concurrent)%nat)).2
            = Ok html_content
            /\ (finish (parse_html html_content url)).2 = Ok s
            /\ results !! i = Some s)
    /\ (forall sched_fetch' sched_parse' tr',
          (process_urls sched_fetch' sched_parse' urls max_concurrent tr').1
          = Ok results).
Proof.
  intros Hok Hmc. eexists. split; [by apply process_urls_ok; auto|].
  split; [apply process_urls_length|]. split.
  - intros i url Hi.
    exists (fetched (i mod pool_size urls max_concurrent)%nat url),
      (extraction (fetched (i mod pool_size urls max_concurrent)%nat url) url).
    split; [by rewrite finish_fetch_page_ok|].
    split; [apply finish_parse_html|by apply process_urls_slot].
  - intros sf sp tr'. by apply process_urls_ok; auto.
Qed.

Lemma filter_new_context_contexts l :
  List.filter is_new_context (NewContext <$> l) = NewContext <$> l.
Proof. induction l as [|c l IH]; [done|]. cbn. by rewrite IH. Qed.

Lemma filter_new_context_pages urls n evs :
  Forall (page_event urls n) evs -> List.filter is_new_context evs = [].
Proof. induction 1 as [|[] evs Hev H IH]; done. Qed.

Lemma filter_new_context_teardown evs :
  Forall (fun ev => is_teardown ev = true) evs ->
  List.filter is_new_context evs = [].
Proof. induction 1 as [|[] evs Hev H IH]; done. Qed.

Lemma filter_teardown_contexts l :
  List.filter is_teardown (NewContext <$> l) = [].
Proof. induction l as [|c l IH]; done. Qed.

Lemma filter_teardown_pages urls n evs :
  Forall (page_event urls n) evs -> List.filter is_teardown evs = [].
Proof. induction 1 as [|[] evs Hev H IH]; done. Qed.

Lemma filter_teardown_closes l :
  List.filter is_teardown (ContextClose <$> l) = ContextClose <$> l.
Proof. induction l as [|c l IH]; [done|]. cbn. by rewrite IH. Qed.

(** C6. With at least one URL and a bound of at least one, on a backend
    that starts the browser and makes every context asked for,
    [process_urls] makes exactly min(len(urls), max_concurrent) contexts,
    the contexts 0 .. n-1; the task of URL [i] is [fetch_page] on context
    [i mod n]; and every page of the batch is a page for some URL [i] on
    context [i mod n]. *)
Theorem pool_has_min_contexts_round_robin
    sched_fetch sched_parse urls max_concurrent tr :
  urls <> [] ->
  (1 <= max_concurrent)%Z ->
  launch B = None ->
  (forall k, new_context B k = None) ->
  pool_size urls max_concurrent = Nat.min (length urls) (Z.to_nat max_concurrent)
  /\ List.filter is_new_context
       (process_urls sched_fetch sched_parse urls max_concurrent tr).2
     = List.filter is_new_context tr
       ++ (NewContext <$> seq 0 (pool_size urls max_concurrent))
  /\ make_fetch_tasks 0 urls (seq 0 (pool_size urls max_concurrent))
     = Ok (imap (fun i url =>
                   fetch_page url (i mod pool_size urls max_concurrent)%nat)
             urls)
  /\ (forall c url,
        NewPage c url
          ∈ (process_urls sched_fetch sched_parse urls max_concurrent tr).2 ->
        NewPage c url ∈ tr
        \/ exists i, urls !! i = Some url
                     /\ c = (i mod pool_size urls max_concurrent)%nat).
Proof.
  intros Hne Hmc Hl Hnc.
  assert (Hor : urls = [] \/ (1 <= max_concurrent)%Z) by by right.
  destruct (process_urls_trace sched_fetch sched_parse urls max_concurrent tr
              Hl Hnc Hor) as (mid & fin & -> & Hmid & Hfin & _).
  repeat split.
  - unfold pool_size. lia.
  - rewrite !List.filter_app, filter_new_context_contexts.
    rewrite (filter_new_context_pages _ _ _ Hmid).
    rewrite (filter_new_context_teardown _ Hfin). cbn. by rewrite app_nil_r.
  - apply make_fetch_tasks_pool, pool_size_pos, Hor.
  - intros c url Hin. rewrite !elem_of_app in Hin.
    destruct Hin as [?|[Hin|[Hin|[Hin|[Hin|Hin]]]]]; [by left|..].
    + apply elem_of_cons in Hin as [?|Hin]; [done|].
      apply elem_of_cons in Hin as [?|Hin]; [done|].
      by apply elem_of_nil in Hin.
    + apply list_elem_of_fmap in Hin as (? & ? & _). done.
    + right. exact (proj1 (Forall_forall _ _) Hmid _ Hin).
    + by pose proof (proj1 (Forall_forall _ _) Hfin _ Hin).
    + apply elem_of_cons in Hin as [?|Hin]; [done|].
      by apply elem_of_nil in Hin.
Qed.

(** When the browser starts, every context is made and no [close] fails,
    the contexts 0 .. n-1 are closed once each and then the browser is
    closed once, whatever happens to the fetches. *)
Lemma teardown_when_pool_is_made
    sched_fetch sched_parse urls max_concurrent tr :
  launch B = None ->
  (forall k, new_context B k = None) ->
  (forall c, context_close B c = None) ->
  browser_close B = None ->
  urls = [] \/ (1 <= max_concurrent)%Z ->
  List.filter is_teardown
    (process_urls sched_fetch sched_parse urls max_concurrent tr).2
  = List.filter is_teardown tr
    ++ (ContextClose <$> seq 0 (pool_size urls max_concurrent))
    ++ [BrowserClose].
Proof.
  intros Hl Hnc Hcc Hbc Hor.
  destruct (process_urls_trace sched_fetch sched_parse urls max_concurrent tr
              Hl Hnc Hor) as (mid & fin & -> & Hmid & _ & Hfin).
  rewrite (Hfin Hcc Hbc).
  rewrite !List.filter_app, filter_teardown_contexts.
  rewrite (filter_teardown_pages _ _ _ Hmid), filter_teardown_closes.
  cbn. by rewrite app_nil_r.
Qed.

(** A page that is fetched and is empty gives an empty slot. *)
Lemma empty_page_gives_empty_slot
    sched_fetch sched_parse urls max_concurrent tr i url :
  pool_ok ->
  (1 <= max_concurrent)%Z ->
  urls !! i = Some url ->
  navigate B (i mod pool_size urls max_concurrent)%nat url = Ok "" ->
  exists results,
    (process_urls sched_fetch sched_parse urls max_concurrent tr).1 = Ok results
    /\ results !! i = Some "".
Proof.
  intros Hok Hmc Hi Hnav. eexists.
  split; [by apply process_urls_ok; auto|].
  rewrite (process_urls_slot _ _ _ _ Hi). unfold fetched. by rewrite Hnav.
Qed.

(** ** The frames the traversal needs *)








(** ** What is inside [script] and [style] does not count *)

Lemma same_visible_skip c c' :
  same_visible c c' -> should_skip_element c = should_skip_element c'.
Proof.
  unfold should_skip_element, is_script_or_style.
  intros [e e' H H' _|e e' H H' Ht _ Hc].
  - unfold is_script_or_style in *. by rewrite H, H'.
  - unfold is_script_or_style in *. rewrite H, H', Ht.
    assert (has_children e = has_children e') as ->; [|done].
    unfold has_children. by destruct Hc.
Qed.

Lemma same_visible_shown c c' :
  same_visible c c' ->
  should_skip_element c = false ->
  text c = text c' /\ Forall2 same_visible (children c) (children c').
Proof.
  intros [e e' H H' _|e e' H H' Ht _ Hc] Hs; [|done].
  unfold should_skip_element, is_script_or_style in *. by rewrite H in Hs.
Qed.

Lemma same_visible_tail c c' : same_visible c c' -> tail c = tail c'.
Proof. by intros [e e' _ _ H|e e' _ _ _ H _]. Qed.

Lemma candidate_lines_same fuel :
  forall e e' d,
    text e = text e' ->
    Forall2 same_visible (children e) (children e') ->
    candidate_lines fuel e d
    = candidate_lines fuel e' d.
Proof.
  induction fuel as [|fuel IH]; intros e e' d Ht Hc; [done|].
  cbn [candidate_lines]. rewrite Ht. f_equal.
  induction Hc as [|c c' cs cs' Hcc _ IHc]; [done|].
  cbn [children_candidates].
  rewrite <- (same_visible_skip _ _ Hcc), <- (same_visible_tail _ _ Hcc), IHc.
  destruct (should_skip_element c) eqn:Hs; [done|].
  destruct (same_visible_shown _ _ Hcc Hs) as [Ht' Hc'].
  by rewrite (IH c c' (S d) Ht' Hc').
Qed.

(** X3. Two elements with the same text whose children differ only inside
    [script] and [style] elements (and in attributes and other tag names)
    give the same lines and the same set of seen hashes: nothing inside a
    [script] or [style] element reaches the output, only its tail. *)
Theorem script_and_style_content_is_ignored fuel seen e e' indentation :
  text e = text e' ->
  Forall2 same_visible (children e) (children e') ->
  process_element fuel seen e indentation
  = process_element fuel seen e' indentation.
Proof.
  intros Ht Hc. rewrite !process_element_first_occurrences.
  by rewrite (candidate_lines_same fuel e e' indentation Ht Hc).
Qed.
(** ** The shape of the body lines *)

Lemma nonempty_strip t :
  PyStr.nonempty (PyStr.strip t) = true -> PyStr.nonempty t = true.
Proof. by destruct t. Qed.

Lemma startswith_indent d k x :
  (d <= k)%nat ->
  PyStr.startswith (PyStr.repeat "  " d) (PyStr.repeat "  " k +:+ x) = true.
Proof.
  revert k. induction d as [|d IH]; intros k H; [done|].
  destruct k as [|k]; [lia|]. apply (IH k). lia.
Qed.

Lemma children_candidates_Forall (P : string -> Prop) child_candidates indent :
  (forall c ls, child_candidates c = Ok ls -> Forall P ls) ->
  (forall o, Forall P (candidate indent o)) ->
  forall cs r,
    children_candidates child_candidates indent cs = Ok r -> Forall P r.
Proof.
  intros Hc Ht. induction cs as [|c cs IH]; intros r H.
  - injection H as <-. constructor.
  - cbn [children_candidates] in H.
    assert (Ha : exists a b,
               (if should_skip_element c then Ok [] else child_candidates c)
               = Ok a
               /\ children_candidates child_candidates indent cs = Ok b
               /\ r = a ++ candidate indent (tail c) ++ b).
    { destruct (if should_skip_element c then _ else _) as [a|e];
        cbn [bind] in H; [|done].
      destruct (children_candidates child_candidates indent cs) as [b|e];
        cbn [bind] in H; [|done].
      injection H as <-. by exists a, b. }
    destruct Ha as (a & b & Ha & Hb & ->).
    repeat apply Forall_app_2; [|apply Ht|by apply IH].
    destruct (should_skip_element c); [|by eapply Hc].
    injection Ha as <-. constructor.
Qed.

Lemma candidate_Forall indent o :
  Forall (fun l => exists t,
            l = indent +:+ PyStr.strip t
            /\ PyStr.nonempty (PyStr.strip t) = true)
    (candidate indent o).
Proof.
  unfold candidate. destruct o as [t|]; [|constructor].
  destruct (PyStr.nonempty t); cbn [andb]; [|constructor].
  destruct (PyStr.nonempty (PyStr.strip t)) eqn:E; repeat constructor.
  by exists t.
Qed.

Lemma candidate_lines_shape fuel :
  forall el d ls,
    candidate_lines fuel el d = Ok ls ->
    Forall (fun l => exists k t,
              (d <= k)%nat
              /\ l = PyStr.repeat "  " k +:+ PyStr.strip t
              /\ PyStr.nonempty (PyStr.strip t) = true) ls.
Proof.
  induction fuel as [|fuel IH]; intros el d ls H; [done|].
  cbn [candidate_lines] in H.
  destruct (children_candidates _ _ _) as [r|e] eqn:Hr; cbn [bind] in H;
    [|done].
  injection H as <-.
  assert (Hown : forall o,
            Forall (fun l => exists k t,
                      (d <= k)%nat
                      /\ l = PyStr.repeat "  " k +:+ PyStr.strip t
                      /\ PyStr.nonempty (PyStr.strip t) = true)
              (candidate (PyStr.repeat "  " d) o)).
  { intros o. eapply Forall_impl; [apply candidate_Forall|].
    intros l (t & -> & Ht). by exists d, t. }
  apply Forall_app_2; [apply Hown|].
  eapply children_candidates_Forall; [|apply Hown|exact Hr].
  intros c lc Hc. eapply Forall_impl; [by apply (IH c (S d))|].
  intros l (k & t & Hk & -> & Ht). exists k, t. split; [lia|done].
Qed.

Lemma process_element_line_shape fuel seen el d lines seen' :
  process_element fuel seen el d = Ok (lines, seen') ->
  forall l,
    l ∈ lines ->
    exists k t,
      (d <= k)%nat
      /\ l = PyStr.repeat "  " k +:+ PyStr.strip t
      /\ PyStr.nonempty (PyStr.strip t) = true
      /\ PyStr.lstrip l = PyStr.strip t
      /\ PyStr.startswith (PyStr.repeat "  " d) l = true.
Proof.
  rewrite process_element_first_occurrences.
  destruct (candidate_lines fuel el d) as [cands|e] eqn:Hc; cbn [bind];
    [|done].
  intros [= H] l Hl.
  assert (lines = (first_occurrences seen cands).1) as -> by by rewrite H.
  assert (Hin : l ∈ cands).
  { eapply elem_of_sublist; [done|apply first_occurrences_sublist]. }
  destruct (proj1 (Forall_forall _ _) (candidate_lines_shape _ _ _ _ Hc) l Hin)
    as (k & t & Hk & -> & Ht).
  exists k, t. repeat split; try done.
  - by rewrite lstrip_app_blank, lstrip_strip by apply lstrip_indent.
  - by apply startswith_indent.
Qed.

(** X4. Every line the traversal of an element at indentation [d] emits is
    [2k] spaces, for some [k] of at least [d], followed by a trimmed text
    that is not empty: the line starts with the indentation of the
    element, is not blank, and what follows its leading white space is
    that text. *)
Theorem body_lines_are_indented_texts fuel seen el d lines seen' :
  process_element fuel seen el d = Ok (lines, seen') ->
  forall l,
    l ∈ lines ->
    exists k t,
      (d <= k)%nat
      /\ l = PyStr.repeat "  " k +:+ PyStr.strip t
      /\ PyStr.nonempty (PyStr.strip t) = true
      /\ PyStr.lstrip l = PyStr.strip t
      /\ PyStr.startswith (PyStr.repeat "  " d) l = true.
Proof. apply process_element_line_shape. Qed.

Lemma metadata_nonempty parsed_html url :
  Forall (fun l => l <> "") (metadata parsed_html url).
Proof.
  unfold metadata.
  destruct (title_lines_cases parsed_html) as [->|[x ->]];
    destruct (description_lines_cases (findall "meta" parsed_html))
      as [->|[y ->]];
    cbn [app]; repeat constructor; by cbv [String.append].
Qed.

(** X5. In the document before the filter the empty line is the separator
    and nothing else: entry [i] is empty iff [i] is the number of metadata
    lines. *)
Theorem separator_is_the_only_empty_line parsed_html url result i :
  prefilter parsed_html url = Ok result ->
  result !! i = Some "" <-> i = length (metadata parsed_html url).
Proof.
  intros H. destruct (prefilter_ok _ _ _ H) as (c & Hc & ->).
  assert (Hbody : Forall (fun l => l <> "") c).
  { unfold content in Hc.
    destruct (process_element recursion_budget ∅ (body_of parsed_html) 0)
      as [[ls seen']|e] eqn:Hp; cbn [bind] in Hc; [|done].
    injection Hc as <-. apply Forall_forall. intros l Hl.
    destruct (process_element_line_shape _ _ _ _ _ _ Hp l Hl)
      as (k & t & _ & _ & Ht & Hls & _).
    intros ->. cbn in Hls. rewrite <- Hls in Ht. done. }
  pose proof (metadata_nonempty parsed_html url) as Hmeta.
  split.
  - intros Hi.
    destruct (Nat.lt_trichotomy i (length (metadata parsed_html url)))
      as [Hlt|[->|Hgt]]; [|done|].
    + rewrite lookup_app_l in Hi by done.
      by pose proof (proj1 (Forall_lookup _ _) Hmeta _ _ Hi).
    + rewrite lookup_app_r in Hi by lia.
      destruct (i - length (metadata parsed_html url))%nat as [|j] eqn:Hj;
        [lia|]. cbn in Hi.
      by pose proof (proj1 (Forall_lookup _ _) Hbody _ _ Hi).
  - intros ->. rewrite lookup_app_r by lia. by rewrite Nat.sub_diag.
Qed.
(** ** No text of an entered element is lost before the filter *)

Lemma children_candidates_member child_candidates indent cs r c :
  children_candidates child_candidates indent cs = Ok r ->
  c ∈ cs ->
  candidate indent (tail c) ⊆ r
  /\ (should_skip_element c = false ->
      exists lc, child_candidates c = Ok lc /\ lc ⊆ r).
Proof.
  revert r. induction cs as [|c' cs IH]; intros r H Hc;
    [by apply elem_of_nil in Hc|].
  cbn [children_candidates] in H.
  destruct (if should_skip_element c' then Ok [] else child_candidates c')
    as [a|e] eqn:Ha; cbn [bind] in H; [|done].
  destruct (children_candidates child_candidates indent cs) as [b|e] eqn:Hb;
    cbn [bind] in H; [|done].
  injection H as <-.
  apply elem_of_cons in Hc as [->|Hc].
  - split.
    + intros l Hl. rewrite !elem_of_app. auto.
    + intros Hs. rewrite Hs in Ha. exists a. split; [done|].
      intros l Hl. rewrite elem_of_app. auto.
  - destruct (IH b eq_refl Hc) as [Ht Hl]. split.
    + intros l Hin. rewrite !elem_of_app. auto.
    + intros Hs. destruct (Hl Hs) as (lc & Hlc & Hsub).
      exists lc. split; [done|].
      intros l Hin. rewrite !elem_of_app. auto.
Qed.

Lemma candidate_lines_own fuel e d ls :
  candidate_lines fuel e d = Ok ls ->
  candidate (PyStr.repeat "  " d) (text e) ⊆ ls
  /\ (forall c, c ∈ children e ->
        candidate (PyStr.repeat "  " d) (tail c) ⊆ ls)
  /\ (forall c, c ∈ children e -> should_skip_element c = false ->
        exists fuel' lc,
          candidate_lines fuel' c (S d) = Ok lc /\ lc ⊆ ls).
Proof.
  destruct fuel as [|fuel]; [done|]. cbn [candidate_lines].
  destruct (children_candidates _ _ _) as [r|err] eqn:Hr; cbn [bind]; [|done].
  intros [= <-]. split; [|split].
  - intros l Hl. rewrite elem_of_app. auto.
  - intros c Hc l Hl. rewrite elem_of_app. right.
    by apply (proj1 (children_candidates_member _ _ _ _ _ Hr Hc)).
  - intros c Hc Hs.
    destruct (proj2 (children_candidates_member _ _ _ _ _ Hr Hc) Hs)
      as (lc & Hlc & Hsub).
    exists fuel, lc. split; [done|].
    intros l Hl. rewrite elem_of_app. auto.
Qed.

Lemma candidate_lines_visited fuel root d0 ls e d :
  candidate_lines fuel root d0 = Ok ls ->
  visited root d0 e d ->
  exists fuel' le, candidate_lines fuel' e d = Ok le /\ le ⊆ ls.
Proof.
  intros H Hv. induction Hv as [|parent d child Hv IH Hc Hs].
  - exists fuel, ls. by split.
  - destruct IH as (fp & lp & Hp & Hsub).
    destruct (candidate_lines_own _ _ _ _ Hp) as (_ & _ & Hch).
    destruct (Hch child Hc Hs) as (fc & lc & Hlc & Hsubc).
    exists fc, lc. split; [done|]. intros l Hl. by apply Hsub, Hsubc.
Qed.

Lemma candidate_printable indent t :
  PyStr.nonempty (PyStr.strip t) = true ->
  indent +:+ PyStr.strip t ∈ candidate indent (Some t).
Proof.
  intros H. unfold candidate. rewrite H, (nonempty_strip _ H).
  apply list_elem_of_here.
Qed.

Lemma process_element_keeps_texts fuel seen root d0 lines seen' e d :
  process_element fuel seen root d0 = Ok (lines, seen') ->
  visited root d0 e d ->
  forall o t,
    o = text e \/ (exists c, c ∈ children e /\ o = tail c) ->
    o = Some t ->
    PyStr.nonempty (PyStr.strip t) = true ->
    hash (PyStr.strip t) ∈ seen
    \/ exists l, l ∈ lines /\ line_key l = hash (PyStr.strip t).
Proof.
  rewrite process_element_first_occurrences.
  destruct (candidate_lines fuel root d0) as [cands|err] eqn:Hc; cbn [bind];
    [|done].
  intros [= H] Hv o t Ho -> Ht.
  assert (lines = (first_occurrences seen cands).1) as -> by by rewrite H.
  destruct (candidate_lines_visited _ _ _ _ _ _ Hc Hv) as (fe & le & Hle & Hsub).
  destruct (candidate_lines_own _ _ _ _ Hle) as (Htext & Htail & _).
  assert (Hin : PyStr.repeat "  " d +:+ PyStr.strip t ∈ cands).
  { apply Hsub. destruct Ho as [Ho|(c & Hcin & Ho)].
    - apply Htext. rewrite <- Ho. by apply candidate_printable.
    - apply (Htail c Hcin). rewrite <- Ho. by apply candidate_printable. }
  destruct (first_occurrences_covers seen cands _ Hin) as [Hs|(l & Hl & Hk)].
  - left. by rewrite line_key_indented in Hs by apply lstrip_indent.
  - right. exists l. split; [done|].
    by rewrite Hk, line_key_indented by apply lstrip_indent.
Qed.

(** X6. Before the filter no text is lost but by deduplication: for every
    element the traversal enters, its text and the tail of each of its
    children (skipped or not), when not blank, is either a text whose hash
    was seen before the traversal began, or there is an emitted line whose
    trimmed text has the same hash. *)
Theorem entered_texts_are_emitted fuel seen root d0 lines seen' e d :
  process_element fuel seen root d0 = Ok (lines, seen') ->
  visited root d0 e d ->
  forall o t,
    o = text e \/ (exists c, c ∈ children e /\ o = tail c) ->
    o = Some t ->
    PyStr.nonempty (PyStr.strip t) = true ->
    hash (PyStr.strip t) ∈ seen
    \/ exists l, l ∈ lines /\ line_key l = hash (PyStr.strip t).
Proof. apply process_element_keeps_texts. Qed.

(** ** The metadata lines *)

(** X7. The metadata is one to three lines: at most one line starting
    with "Title: ", then at most one starting with "Description: ", then
    the line "URL: <url>", which is always the last. *)
Theorem metadata_ends_with_the_url parsed_html url :
  exists title description,
    metadata parsed_html url = title ++ description ++ ["URL: " +:+ url]
    /\ (title = [] \/ exists x, title = ["Title: " +:+ x])
    /\ (description = [] \/ exists y, description = ["Description: " +:+ y])
    /\ last (metadata parsed_html url) = Some ("URL: " +:+ url)
    /\ (1 <= length (metadata parsed_html url) <= 3)%nat.
Proof.
  exists (title_lines parsed_html),
    (description_lines (findall "meta" parsed_html)).
  unfold metadata.
  destruct (title_lines_cases parsed_html) as [Ht|[x Ht]];
    destruct (description_lines_cases (findall "meta" parsed_html))
      as [Hd|[y Hd]];
    rewrite Ht, Hd; repeat split; eauto; cbn; lia.
Qed.

Lemma description_lines_none metas :
  Forall (fun m => is_description m = false) metas ->
  description_lines metas = [].
Proof.
  induction 1 as [|m metas Hm _ IH]; [done|].
  cbn [description_lines]. unfold is_description in Hm. by rewrite Hm.
Qed.

(** X8. The description is taken from the first [meta] element, in
    document order, whose name is "description" in any letter case and
    whose content is not empty; the [meta] elements after it are not
    looked at; without such an element there is no description line. *)
Theorem description_is_the_first_match metas :
  (Forall (fun m => is_description m = false) metas ->
   description_lines metas = [])
  /\ (forall before m after,
        metas = before ++ m :: after ->
        Forall (fun m' => is_description m' = false) before ->
        is_description m = true ->
        description_lines metas
        = ["Description: "
             +:+ PyStr.strip (default "" (attrib m !! "content"))]).
Proof.
  split; [apply description_lines_none|].
  intros before m after -> Hb Hm.
  induction Hb as [|m' before Hm' _ IH]; cbn [app description_lines].
  - unfold is_description in Hm. by rewrite Hm.
  - unfold is_description in Hm'. by rewrite Hm'.
Qed.

(** ** More on the noise filter *)

Lemma filter_lines_id ps ls :
  Forall (fun l => skip_line ps l = false) ls -> filter_lines ps ls = ls.
Proof.
  induction 1 as [|l ls Hl _ IH]; [done|].
  cbn [filter_lines]. by rewrite Hl, IH.
Qed.

(** X9. The filter only removes lines: what it returns is a subsequence of
    its input in which no line is matched, it returns an input without a
    matched line unchanged, and filtering twice is filtering once. *)
Theorem filter_only_removes_matched_lines ps ls :
  sublist (filter_lines ps ls) ls
  /\ Forall (fun l => skip_line ps l = false) (filter_lines ps ls)
  /\ (filter_lines ps ls = ls <-> Forall (fun l => skip_line ps l = false) ls)
  /\ filter_lines ps (filter_lines ps ls) = filter_lines ps ls.
Proof.
  assert (Hclean : Forall (fun l => skip_line ps l = false)
                     (filter_lines ps ls)).
  { apply Forall_forall. by intros l [_ ?]%elem_of_filter_lines. }
  repeat split.
  - apply filter_lines_sublist.
  - exact Hclean.
  - intros H. by rewrite <- H.
  - apply filter_lines_id.
  - by apply filter_lines_id.
Qed.

Lemma noise_words_are_plain :
  forall p w, p ∈ noise_patterns -> w ∈ p ->
              PyStr.contains PyStr.nl w = false /\ PyStr.nonempty w = true.
Proof.
  assert (H : forallb (fun p =>
                forallb (fun w => negb (PyStr.contains PyStr.nl w)
                                  && PyStr.nonempty w) p)
                noise_patterns = true) by reflexivity.
  intros p w Hp Hw.
  rewrite forallb_forall in H.
  specialize (H p (proj1 (list_elem_of_In _ _) Hp)).
  rewrite forallb_forall in H.
  specialize (H w (proj1 (list_elem_of_In _ _) Hw)).
  apply andb_true_iff in H as [H1 H2]. by apply negb_true_iff in H1.
Qed.

(** X10. When parsing and traversal do not raise, the returned text
    contains none of the words of the noise patterns, wherever in the
    text: not "id=", not "class=", not "document.", and so on for all
    twenty. *)
Theorem returned_text_has_no_noise_word html_content url lines :
  filtered_result html_content url = Ok lines ->
  forall p w,
    p ∈ noise_patterns -> w ∈ p ->
    PyStr.contains w (_parse_html_impl html_content url) = false.
Proof.
  intros H p w Hp Hw.
  assert (_parse_html_impl html_content url = PyStr.join PyStr.nl lines) as ->.
  { unfold _parse_html_impl, parse_try. by rewrite H. }
  destruct (filtered_result_ok _ _ _ H) as (parsed & result & _ & _ & ->).
  destruct (noise_words_are_plain p w Hp Hw) as [Hnl Hne].
  apply not_contains_join; [done|done|].
  intros l [_ Hl]%elem_of_filter_lines.
  destruct (PyStr.contains w l) eqn:E; [|done].
  rewrite (skip_line_word w p l Hp Hw E) in Hl. done.
Qed.
(** ** More on the event loop *)

Lemma drain_outcomes {A} (tasks : list (coro A)) :
  forall tr,
    match (drain tasks tr).1 with
    | Ok vals => (fun c => (finish c).2) <$> tasks = Ok <$> vals
    | Raise e => Raise e ∈ ((fun c => (finish c).2) <$> tasks)
    end.
Proof.
  induction tasks as [|c tasks IH]; intros tr; [done|].
  cbn [drain fmap list_fmap].
  destruct (finish c).2 as [a|e] eqn:Hc; [|apply list_elem_of_here].
  specialize (IH (tr ++ (finish c).1)).
  destruct (drain tasks (tr ++ (finish c).1)) as [[l|e] tr']; cbn [fst] in *.
  - cbn [fmap list_fmap]. by rewrite IH.
  - by apply list_elem_of_further.
Qed.

Lemma outcomes_insert {A} (tasks : list (coro A)) j ev k :
  tasks !! j = Some (Await ev k) ->
  (fun c => (finish c).2) <$> <[j:=k]> tasks
  = (fun c => (finish c).2) <$> tasks.
Proof.
  intros Hj. rewrite list_fmap_insert. apply list_insert_id.
  by rewrite list_lookup_fmap, Hj.
Qed.

Lemma gather_outcomes {A} (sched : list nat) :
  forall (tasks : list (coro A)) tr,
    match (gather sched tasks tr).1 with
    | Ok vals => (fun c => (finish c).2) <$> tasks = Ok <$> vals
    | Raise e => Raise e ∈ ((fun c => (finish c).2) <$> tasks)
    end.
Proof.
  induction sched as [|j sched IH]; intros tasks tr;
    [apply drain_outcomes|].
  cbn [gather]. destruct (tasks !! j) as [[a|e|ev k]|] eqn:Hj;
    try apply IH.
  - cbn. apply list_elem_of_lookup. exists j.
    by rewrite list_lookup_fmap, Hj.
  - rewrite <- (outcomes_insert tasks j ev k Hj). apply IH.
Qed.

Lemma gather_nil {A} (sched : list nat) tr :
  gather sched (@nil (coro A)) tr = (Ok [], tr).
Proof. induction sched as [|j sched IH]; [done|]. exact IH. Qed.

Lemma drain_trace {A} (tasks : list (coro A)) :
  Forall (fun c => exists v, (finish c).2 = Ok v) tasks ->
  forall tr,
    (drain tasks tr).2
    = tr ++ concat ((fun c => (finish c).1) <$> tasks).
Proof.
  induction 1 as [|c tasks [v Hv] _ IH]; intros tr.
  - cbn. by rewrite app_nil_r.
  - cbn [drain fmap list_fmap concat]. rewrite Hv.
    specialize (IH (tr ++ (finish c).1)).
    destruct (drain tasks (tr ++ (finish c).1)) as [[l|e] tr'];
      cbn [snd] in *; by rewrite IH, app_assoc.
Qed.

Lemma events_insert {A} (tasks : list (coro A)) j ev k :
  tasks !! j = Some (Await ev k) ->
  concat ((fun c => (finish c).1) <$> tasks)
  ≡ₚ ev :: concat ((fun c => (finish c).1) <$> <[j:=k]> tasks).
Proof.
  intros Hj.
  rewrite insert_take_drop by (by eapply lookup_lt_Some).
  rewrite <- (take_drop_middle tasks j (Await ev k) Hj) at 1.
  rewrite !fmap_app, !fmap_cons, !concat_app, !concat_cons.
  cbn [finish fst app]. symmetry. apply Permutation_middle.
Qed.

Lemma gather_trace {A} (sched : list nat) :
  forall (tasks : list (coro A)) tr,
    Forall (fun c => exists v, (finish c).2 = Ok v) tasks ->
    (gather sched tasks tr).2
    ≡ₚ tr ++ concat ((fun c => (finish c).1) <$> tasks).
Proof.
  induction sched as [|j sched IH]; intros tasks tr H.
  - cbn [gather]. by rewrite drain_trace.
  - cbn [gather]. destruct (tasks !! j) as [[a|e|ev k]|] eqn:Hj;
      try by apply IH.
    + destruct (proj1 (Forall_lookup _ _) H j _ Hj) as [v Hv]. done.
    + rewrite IH.
      * rewrite (events_insert tasks j ev k Hj), <- app_assoc. done.
      * apply Forall_insert; [done|].
        exact (proj1 (Forall_lookup _ _) H j _ Hj).
Qed.
(** ** More on [process_urls] *)

(** A batch on a backend that starts the browser and makes every context:
    the pool is set up, lines 194-207 run, then the [finally] block. *)
Lemma process_urls_run sched_fetch sched_parse urls max_concurrent tr :
  launch B = None ->
  (forall k, new_context B k = None) ->
  process_urls sched_fetch sched_parse urls max_concurrent tr
  = (match (finally_block (Some (seq 0 (pool_size urls max_concurrent)))
              (fetch_and_parse sched_fetch sched_parse urls
                 (seq 0 (pool_size urls max_concurrent))
                 (tr ++ [PlaywrightStart; Launch]
                     ++ (NewContext <$> seq 0 (pool_size urls max_concurrent)))).2).1
     with
     | Ok _ =>
         (fetch_and_parse sched_fetch sched_parse urls
            (seq 0 (pool_size urls max_concurrent))
            (tr ++ [PlaywrightStart; Launch]
                ++ (NewContext <$> seq 0 (pool_size urls max_concurrent)))).1
     | Raise e => Raise e
     end,
     (finally_block (Some (seq 0 (pool_size urls max_concurrent)))
        (fetch_and_parse sched_fetch sched_parse urls
           (seq 0 (pool_size urls max_concurrent))
           (tr ++ [PlaywrightStart; Launch]
               ++ (NewContext <$> seq 0 (pool_size urls max_concurrent)))).2).2
     ++ [PlaywrightStop]).
Proof.
  intros Hl Hnc. unfold process_urls, launch_and_run, try_block.
  rewrite Hl. fold (pool_size urls max_concurrent).
  rewrite create_contexts_ok by done.
  replace ((tr ++ [PlaywrightStart]) ++ [Launch])
    with (tr ++ [PlaywrightStart; Launch]) by by rewrite <- app_assoc.
  rewrite <- app_assoc.
  destruct (fetch_and_parse _ _ _ _ _) as [r tr2]. cbn [fst snd].
  by destruct (finally_block _ tr2) as [[[]|e] tr3].
Qed.

Lemma fetch_and_parse_raises sched_fetch sched_parse urls n tr i url e :
  urls = [] \/ (0 < n)%nat ->
  urls !! i = Some url ->
  (finish (fetch_page url (i mod n)%nat)).2 = Raise e ->
  exists e',
    (fetch_and_parse sched_fetch sched_parse urls (seq 0 n) tr).1 = Raise e'.
Proof.
  intros Hn Hi He. unfold fetch_and_parse, io_bind, io_lift.
  rewrite (make_fetch_tasks_pool _ _ Hn).
  pose proof (gather_outcomes sched_fetch
                (imap (fun i url => fetch_page url (i mod n)%nat) urls) tr)
    as G.
  destruct (gather sched_fetch _ tr) as [[vals|e'] tr1]; cbn [fst] in *;
    [|by exists e'].
  apply (f_equal (fun l => l !! i)) in G.
  rewrite !list_lookup_fmap, list_lookup_imap, Hi in G. cbn in G.
  rewrite He in G. by destruct (vals !! i).
Qed.

(** X11. An exception of [fetch_page] itself is not isolated: when
    [context.new_page()] or [page.close()] raises for one URL, so that
    [fetch_page] raises, the whole batch raises and no result is returned,
    under every schedule. *)
Theorem page_errors_abort_the_batch
    sched_fetch sched_parse urls max_concurrent tr i url e :
  launch B = None ->
  (forall k, new_context B k = None) ->
  (1 <= max_concurrent)%Z ->
  urls !! i = Some url ->
  new_page B (i mod pool_size urls max_concurrent)%nat url = Some e
  \/ page_close B (i mod pool_size urls max_concurrent)%nat url = Some e ->
  (exists e0,
     (finish (fetch_page url (i mod pool_size urls max_concurrent)%nat)).2
     = Raise e0)
  /\ exists e',
       (process_urls sched_fetch sched_parse urls max_concurrent tr).1
       = Raise e'.
Proof.
  intros Hl Hnc Hmc Hi Hfail.
  assert (Hf : exists e0,
             (finish (fetch_page url
                        (i mod pool_size urls max_concurrent)%nat)).2
             = Raise e0).
  { unfold fetch_page.
    destruct (new_page B _ url) as [e1|] eqn:Hnp; [by exists e1|].
    destruct Hfail as [?|Hpc]; [done|]. rewrite Hpc. by exists e. }
  split; [done|]. destruct Hf as [e0 He0].
  rewrite process_urls_run by done. cbn [fst].
  destruct (fetch_and_parse_raises sched_fetch sched_parse urls
              (pool_size urls max_concurrent)
              (tr ++ [PlaywrightStart; Launch]
                  ++ (NewContext <$> seq 0 (pool_size urls max_concurrent)))
              i url e0) as [e' He']; [|done|done|].
  { apply pool_size_pos. by right. }
  rewrite He'. destruct (finally_block _ _).1; eauto.
Qed.



Lemma close_contexts_fails m :
  forall a k e tr,
    (a <= k < a + m)%nat ->
    context_close B k = Some e ->
    (forall c, (a <= c < k)%nat -> context_close B c = None) ->
    close_contexts (seq a m) tr
    = (Raise e, tr ++ (ContextClose <$> seq a (k - a))).
Proof.
  induction m as [|m IH]; intros a k e tr Hk He Hbefore; [lia|].
  cbn [seq close_contexts].
  destruct (decide (k = a)) as [->|Hne].
  - rewrite He, Nat.sub_diag. unfold io_raise. by rewrite app_nil_r.
  - rewrite (Hbefore a) by lia. unfold io_bind, io_emit.
    rewrite (IH (S a) k e) by (try done; intros; apply Hbefore || lia; lia).
    replace (k - a)%nat with (S (k - S a)) by lia.
    cbn [seq fmap list_fmap]. by rewrite <- app_assoc.
Qed.

(** X13. When [context.close()] raises for context [k], the [finally]
    block stops there: the batch raises that exception even if every page
    was fetched and parsed, the contexts before [k] are closed, and the
    contexts from [k] on and the browser are not closed. *)
Theorem failed_close_stops_the_teardown
    sched_fetch sched_parse urls max_concurrent tr k e :
  launch B = None ->
  (forall c, new_context B c = None) ->
  (1 <= max_concurrent)%Z ->
  (k < pool_size urls max_concurrent)%nat ->
  context_close B k = Some e ->
  (forall c, (c < k)%nat -> context_close B c = None) ->
  (process_urls sched_fetch sched_parse urls max_concurrent tr).1 = Raise e
  /\ List.filter is_teardown
       (process_urls sched_fetch sched_parse urls max_concurrent tr).2
     = List.filter is_teardown tr ++ (ContextClose <$> seq 0 k).
Proof.
  intros Hl Hnc Hmc Hk He Hbefore.
  assert (Hor : urls = [] \/ (1 <= max_concurrent)%Z) by by right.
  rewrite process_urls_run by done.
  destruct (appends_fetch_and_parse sched_fetch sched_parse urls
              (pool_size urls max_concurrent) (pool_size_pos _ _ Hor)
              (tr ++ [PlaywrightStart; Launch]
                  ++ (NewContext <$> seq 0 (pool_size urls max_concurrent))))
    as (mid & Hmid & HP).
  rewrite Hmid. unfold finally_block, io_bind.
  rewrite (close_contexts_fails _ 0 k e)
    by (try done; try lia; intros; apply Hbefore; lia).
  cbn [fst snd]. split; [done|].
  rewrite Nat.sub_0_r, <- !app_assoc, !List.filter_app.
  rewrite filter_teardown_contexts, (filter_teardown_pages _ _ _ HP).
  rewrite filter_teardown_closes. cbn. by rewrite app_nil_r.
Qed.

(** X14. With a bound of zero or less and at least one URL no context is
    made and line 196 divides by zero: the batch raises
    [ZeroDivisionError] before any page is opened, and the browser is
    still closed. *)
Theorem no_pool_divides_by_zero
    sched_fetch sched_parse urls max_concurrent tr :
  launch B = None ->
  browser_close B = None ->
  urls <> [] ->
  (max_concurrent <= 0)%Z ->
  process_urls sched_fetch sched_parse urls max_concurrent tr
  = (Raise ZeroDivisionError,
     tr ++ [PlaywrightStart; Launch; BrowserClose; PlaywrightStop]).
Proof.
  intros Hl Hbc Hne Hmc.
  unfold process_urls, launch_and_run, try_block. rewrite Hl.
  replace (Z.to_nat (Z.min (Z.of_nat (length urls)) max_concurrent))
    with 0%nat by lia.
  destruct urls as [|url urls]; [done|].
  cbn [create_contexts io_ret fetch_and_parse make_fetch_tasks].
  unfold fetch_and_parse, io_bind, io_lift. cbn [make_fetch_tasks length].
  cbn [Nat.eqb fst snd].
  unfold finally_block, io_bind. cbn [close_contexts io_ret].
  rewrite Hbc. unfold io_emit. cbn [fst snd].
  by rewrite <- !app_assoc.
Qed.

(** X15. For an empty URL list the batch returns the empty list for every
    bound: the browser is started and closed, no context is made and no
    page is opened. *)
Theorem empty_batch sched_fetch sched_parse max_concurrent tr :
  launch B = None ->
  browser_close B = None ->
  process_urls sched_fetch sched_parse [] max_concurrent tr
  = (Ok [], tr ++ [PlaywrightStart; Launch; BrowserClose; PlaywrightStop]).
Proof.
  intros Hl Hbc.
  unfold process_urls, launch_and_run, try_block. rewrite Hl.
  replace (Z.to_nat (Z.min (Z.of_nat (length (@nil string))) max_concurrent))
    with 0%nat by (cbn [length]; lia).
  cbn [create_contexts io_ret].
  unfold fetch_and_parse, io_bind, io_lift. cbn [make_fetch_tasks].
  rewrite gather_nil. cbn [zip_with]. rewrite gather_nil. cbn [fst snd].
  unfold finally_block, io_bind. cbn [close_contexts io_ret].
  rewrite Hbc. unfold io_emit. cbn [fst snd].
  by rewrite <- !app_assoc.
Qed.
Lemma gather_run {A} (sched : list nat) (tasks : list (coro A)) vals tr :
  Forall2 (fun c v => (finish c).2 = Ok v) tasks vals ->
  exists evs,
    gather sched tasks tr = (Ok vals, tr ++ evs)
    /\ evs ≡ₚ concat ((fun c => (finish c).1) <$> tasks).
Proof.
  intros H.
  assert (Hall : Forall (fun c => exists v, (finish c).2 = Ok v) tasks).
  { apply Forall_forall. intros c Hc.
    apply list_elem_of_lookup in Hc as [i Hi].
    destruct (Forall2_lookup_l _ _ _ _ _ H Hi) as (v & _ & Hv). eauto. }
  destruct (appends_gather (fun _ => True) sched tasks) with (tr := tr)
    as (evs & Hevs & _).
  { apply Forall_forall. intros c _. apply Forall_forall. done. }
  pose proof (gather_ok sched tasks vals tr H) as Hr.
  pose proof (gather_trace sched tasks tr Hall) as Hp.
  exists evs. split.
  - destruct (gather sched tasks tr) as [r tr']. cbn [fst snd] in *.
    by rewrite Hr, Hevs.
  - rewrite Hevs in Hp. by apply Permutation_app_inv_l in Hp.
Qed.

Lemma zip_with_imap {X Y Z} (f : Y -> X -> Z) (l : list X) :
  forall g : nat -> X -> Y,
    zip_with f (imap g l) l = imap (fun i x => f (g i x) x) l.
Proof.
  induction l as [|x l IH]; intros g; [done|].
  cbn [imap zip_with]. by rewrite IH.
Qed.

Lemma fmap_imap' {X Y Z} (f : Y -> Z) (l : list X) :
  forall g : nat -> X -> Y, f <$> imap g l = imap (fun i x => f (g i x)) l.
Proof.
  induction l as [|x l IH]; intros g; [done|].
  cbn [imap fmap list_fmap]. by rewrite IH.
Qed.

(** X16. On a backend whose pool works, the events of a batch are: the
    pool is set up; the fetches, which are, in some order, one page
    opened, navigated and closed for every URL [i] on context [i mod n];
    then the parses, which are, in some order, one call of
    [asyncio.to_thread] for every URL whose page came back and is not
    empty; then the teardown. So every page that was opened is closed, and
    all pages are closed before the first context is. *)
Theorem pages_are_opened_and_closed
    sched_fetch sched_parse urls max_concurrent tr :
  pool_ok ->
  urls = [] \/ (1 <= max_concurrent)%Z ->
  exists fetches parses,
    (process_urls sched_fetch sched_parse urls max_concurrent tr).2
    = tr ++ [PlaywrightStart; Launch]
         ++ (NewContext <$> seq 0 (pool_size urls max_concurrent))
         ++ fetches ++ parses
         ++ (ContextClose <$> seq 0 (pool_size urls max_concurrent))
         ++ [BrowserClose; PlaywrightStop]
    /\ fetches
       ≡ₚ concat
            (imap (fun i url =>
                     [NewPage (i mod pool_size urls max_concurrent)%nat url;
                      Navigate (i mod pool_size urls max_concurrent)%nat url;
                      PageClose (i mod pool_size urls max_concurrent)%nat url])
               urls)
    /\ parses
       ≡ₚ concat
            (imap (fun i url =>
                     if PyStr.truthy
                          (fetched (i mod pool_size urls max_concurrent)%nat
                             url)
                     then [ToThread url] else [])
               urls).
Proof.
  intros Hok Hor. pose proof Hok as (Hl & Hnc & _ & _ & Hcc & Hbc).
  rewrite process_urls_run by done.
  rewrite finally_block_ok by done. cbn [fst snd].
  unfold fetch_and_parse, io_bind, io_lift.
  rewrite (make_fetch_tasks_pool _ _ (pool_size_pos _ _ Hor)).
  set (n := pool_size urls max_concurrent).
  set (tr1 := tr ++ [PlaywrightStart; Launch] ++ (NewContext <$> seq 0 n)).
  destruct (gather_run sched_fetch
              (imap (fun i url => fetch_page url (i mod n)%nat) urls)
              (imap (fun i url => fetched (i mod n)%nat url) urls) tr1)
    as (fetches & -> & Hf).
  { apply Forall2_imap. intros i x _. by rewrite finish_fetch_page_ok. }
  destruct (gather_run sched_parse
              (zip_with parse_html
                 (imap (fun i url => fetched (i mod n)%nat url) urls) urls)
              (zip_with extraction
                 (imap (fun i url => fetched (i mod n)%nat url) urls) urls)
              (tr1 ++ fetches))
    as (parses & -> & Hp); [apply Forall2_parse_tasks|].
  exists fetches, parses. cbn [snd]. split; [|split].
  - subst tr1. by rewrite <- !app_assoc.
  - rewrite Hf, fmap_imap'.
    erewrite imap_ext; [reflexivity|]. intros i url _. cbn.
    by rewrite finish_fetch_page_ok.
  - rewrite Hp, zip_with_imap, fmap_imap'.
    erewrite imap_ext; [reflexivity|]. intros i url _. cbn.
    unfold parse_html. by destruct (PyStr.truthy _).
Qed.

(** X17. A URL whose navigation fails is not counted as a success by the
    measuring scripts: on a backend whose pool works the count of a batch
    with such a URL is below the number of URLs, and the count is never
    above it. *)
Theorem failed_urls_are_not_counted
    sched_fetch sched_parse urls max_concurrent tr :
  pool_ok ->
  (1 <= max_concurrent)%Z ->
  exists results,
    (process_urls sched_fetch sched_parse urls max_concurrent tr).1 = Ok results
    /\ (success_count results <= length urls)%nat
    /\ forall j url e,
         urls !! j = Some url ->
         navigate B (j mod pool_size urls max_concurrent)%nat url = Raise e ->
         (success_count results < length urls)%nat.
Proof.
  intros Hok Hmc. eexists. split; [by apply process_urls_ok; auto|].
  assert (Hle : forall rs, (success_count rs <= length rs)%nat).
  { induction rs as [|r rs IH]; [done|]. cbn [success_count length].
    destruct (_ && _); lia. }
  assert (Hlt : forall rs j, rs !! j = Some "" ->
                             (success_count rs < length rs)%nat).
  { induction rs as [|r rs IH]; intros [|j] Hj; try done.
    - injection Hj as ->. cbn. specialize (Hle rs). lia.
    - cbn [success_count length]. specialize (IH j Hj).
      destruct (_ && _); lia. }
  split.
  - etrans; [apply Hle|]. by rewrite process_urls_length.
  - intros j url e Hj Hnav.
    eapply Nat.lt_le_trans; [apply (Hlt _ j)|by rewrite process_urls_length].
    rewrite (process_urls_slot _ _ _ _ Hj). unfold fetched. by rewrite Hnav.
Qed.
(** ** The command line *)

Lemma appends_impl {A} (P Q : event -> Prop) (m : io A) :
  (forall ev, P ev -> Q ev) -> appends P m -> appends Q m.
Proof.
  intros H Hm tr. destruct (Hm tr) as (evs & Hevs & HP).
  exists evs. split; [done|]. by eapply Forall_impl.
Qed.

Lemma appends_create_contexts urls n :
  forall k, appends (for_urls urls) (create_contexts k n).
Proof.
  induction n as [|n IH]; intros k; cbn [create_contexts];
    [apply appends_ret|].
  destruct (new_context B k); [apply appends_raise|].
  apply appends_bind; [by apply appends_emit|]. intros _.
  apply appends_bind; [apply IH|]. intros rest. apply appends_ret.
Qed.

Lemma fetch_page_for_urls urls url context :
  url ∈ urls -> Forall (for_urls urls) (finish (fetch_page url context)).1.
Proof.
  intros Hu. unfold fetch_page.
  destruct (new_page B context url); [constructor|].
  destruct (page_close B context url); cbn [finish fst];
    repeat (apply Forall_cons; split; [exact Hu|]); constructor.
Qed.

Lemma make_fetch_tasks_for_urls urls contexts us :
  forall i tasks,
    us ⊆ urls ->
    make_fetch_tasks i us contexts = Ok tasks ->
    Forall (fun c => Forall (for_urls urls) (finish c).1) tasks.
Proof.
  induction us as [|url us IH]; intros i tasks Hsub H.
  - injection H as <-. constructor.
  - cbn [make_fetch_tasks] in H.
    destruct (Nat.eqb (length contexts) 0); [done|].
    destruct (contexts !! (i mod length contexts)%nat) as [context|]; [|done].
    destruct (make_fetch_tasks (S i) us contexts) as [rest|e] eqn:Hr;
      cbn [bind] in H; [|done].
    injection H as <-. constructor.
    + apply fetch_page_for_urls, Hsub, list_elem_of_here.
    + apply (IH (S i)); [|done].
      intros u Hu. by apply Hsub, list_elem_of_further.
Qed.

Lemma parse_tasks_for_urls urls (html_contents : list (option string)) :
  forall us,
    us ⊆ urls ->
    Forall (fun c => Forall (for_urls urls) (finish c).1)
      (zip_with parse_html html_contents us).
Proof.
  induction html_contents as [|o os IH]; intros [|url us] Hsub; cbn;
    constructor.
  - unfold parse_html. destruct (PyStr.truthy o); cbn; repeat constructor.
    apply Hsub, list_elem_of_here.
  - apply IH. intros u Hu. by apply Hsub, list_elem_of_further.
Qed.

Lemma appends_fetch_and_parse_for_urls sched_fetch sched_parse urls contexts :
  appends (for_urls urls)
    (fetch_and_parse sched_fetch sched_parse urls contexts).
Proof.
  intros tr. unfold fetch_and_parse. unfold io_bind at 1. unfold io_lift.
  destruct (make_fetch_tasks 0 urls contexts) as [tasks|e] eqn:Ht.
  - apply appends_bind.
    + eapply appends_gather, make_fetch_tasks_for_urls; [|exact Ht]. done.
    + intros html_contents. by apply appends_gather, parse_tasks_for_urls.
  - exists []. by rewrite app_nil_r.
Qed.

Lemma appends_finally_for_urls urls contexts :
  appends (for_urls urls) (finally_block contexts).
Proof.
  destruct contexts as [cs|]; [|apply appends_raise].
  eapply appends_impl; [|apply appends_finally_block]. by intros [].
Qed.

Lemma process_urls_for_urls sched_fetch sched_parse urls max_concurrent :
  appends (for_urls urls)
    (process_urls sched_fetch sched_parse urls max_concurrent).
Proof.
  intros tr. unfold process_urls, launch_and_run. cbn [snd].
  destruct (launch B).
  { exists [PlaywrightStart; PlaywrightStop]. unfold io_raise. cbn [snd].
    split; [by rewrite <- app_assoc|by repeat constructor]. }
  unfold try_block.
  destruct (appends_create_contexts urls
              (Z.to_nat (Z.min (Z.of_nat (length urls)) max_concurrent)) 0%nat
              ((tr ++ [PlaywrightStart]) ++ [Launch])) as (e1 & H1 & P1).
  destruct (create_contexts 0 _ _) as [[contexts|e] tr1]; cbn [snd] in H1;
    subst tr1.
  - destruct (appends_fetch_and_parse_for_urls sched_fetch sched_parse urls
                contexts (((tr ++ [PlaywrightStart]) ++ [Launch]) ++ e1))
      as (e2 & H2 & P2).
    destruct (fetch_and_parse _ _ _ _ _) as [r tr2]; cbn [fst snd] in *;
      subst tr2.
    destruct (appends_finally_for_urls urls (Some contexts)
                ((((tr ++ [PlaywrightStart]) ++ [Launch]) ++ e1) ++ e2))
      as (e3 & H3 & P3).
    exists ([PlaywrightStart; Launch] ++ e1 ++ e2 ++ e3 ++ [PlaywrightStop]).
    split.
    + destruct (finally_block _ _) as [[[]|e] tr3]; cbn [snd] in *; subst tr3;
        by rewrite <- !app_assoc.
    + repeat apply Forall_app_2; try done; by repeat constructor.
  - destruct (appends_finally_for_urls urls None
                (((tr ++ [PlaywrightStart]) ++ [Launch]) ++ e1))
      as (e3 & H3 & P3).
    exists ([PlaywrightStart; Launch] ++ e1 ++ e3 ++ [PlaywrightStop]).
    split.
    + destruct (finally_block _ _) as [[[]|e'] tr3]; cbn [snd] in *;
        subst tr3; by rewrite <- !app_assoc.
    + repeat apply Forall_app_2; try done; by repeat constructor.
Qed.

Lemma elem_of_valid_urls up urls url :
  url ∈ valid_urls up urls <-> url ∈ urls /\ validate_url up url = true.
Proof.
  induction urls as [|u urls IH]; cbn [valid_urls].
  - split; [by intros ?%elem_of_nil|by intros [?%elem_of_nil _]].
  - destruct (validate_url up u) eqn:Hu; rewrite ?elem_of_cons, IH;
      split; try tauto.
    + intros [->|[? ?]]; auto.
    + intros [[->|?] Hv]; [congruence|auto].
Qed.

Lemma valid_urls_none up urls :
  Forall (fun url => validate_url up url = false) urls ->
  valid_urls up urls = [].
Proof.
  induction 1 as [|u urls Hu _ IH]; [done|].
  cbn [valid_urls]. by rewrite Hu.
Qed.

(** X18. When no URL passes [validate_url], [main] exits with status 1,
    prints nothing and starts nothing: not the driver, not the browser. *)
Theorem main_without_valid_url up sched_fetch sched_parse urls max_concurrent tr :
  Forall (fun url => validate_url up url = false) urls ->
  main up sched_fetch sched_parse urls max_concurrent tr = ((1%Z, []), tr).
Proof. intros H. unfold main. by rewrite valid_urls_none. Qed.

(** X19. [main] never opens a page or starts a parse for a URL that did
    not pass [validate_url]: every page and parse event it adds is for a
    URL of the command line that passed. This holds on every backend, for
    every bound and every schedule. *)
Theorem main_fetches_only_valid_urls
    up sched_fetch sched_parse urls max_concurrent tr :
  exists evs,
    (main up sched_fetch sched_parse urls max_concurrent tr).2 = tr ++ evs
    /\ forall c url,
         NewPage c url ∈ evs \/ Navigate c url ∈ evs
         \/ PageClose c url ∈ evs \/ ToThread url ∈ evs ->
         url ∈ urls /\ validate_url up url = true.
Proof.
  unfold main. destruct (valid_urls up urls) as [|u us] eqn:Hv.
  { exists []. split; [by rewrite app_nil_r|].
    intros c url [H|[H|[H|H]]]; by apply elem_of_nil in H. }
  destruct (process_urls_for_urls sched_fetch sched_parse (u :: us)
              max_concurrent tr) as (evs & Hevs & HP).
  exists evs. split.
  - by destruct (process_urls _ _ _ _ _) as [[r|e] tr'].
  - intros c url H. apply (elem_of_valid_urls up). rewrite Hv.
    rewrite Forall_forall in HP.
    destruct H as [H|[H|[H|H]]]; exact (HP _ H).
Qed.

Lemma print_results_lookup urls :
  forall results i url text,
    urls !! i = Some url ->
    results !! i = Some text ->
    print_results urls results !! (3 * i)%nat
    = Some (PyStr.nl +:+ "=== Content from " +:+ url +:+ " ===")
    /\ print_results urls results !! (3 * i + 1)%nat = Some text
    /\ print_results urls results !! (3 * i + 2)%nat
       = Some (PyStr.repeat "=" 80).
Proof.
  induction urls as [|u urls IH]; intros [|r results] [|i] url text Hu Hr;
    try done.
  - injection Hu as ->. injection Hr as ->. done.
  - cbn [print_results].
    replace (3 * S i)%nat with (S (S (S (3 * i)))) by lia.
    cbn [lookup list_lookup Nat.add]. by apply IH.
Qed.

Lemma print_results_length urls :
  forall results,
    length results = length urls ->
    length (print_results urls results) = (3 * length urls)%nat.
Proof.
  induction urls as [|u urls IH]; intros [|r results] H; try done.
  cbn [print_results length]. rewrite IH by (cbn in H; lia). lia.
Qed.

(** X20. On a backend whose pool works and with a bound of at least one,
    [main] with at least one valid URL exits with status 0 and prints
    three texts for each valid URL, in the order of the command line: the
    header with the URL, the text extracted for that URL, and a rule of
    80 "=". *)
Theorem main_prints_one_block_per_valid_url
    up sched_fetch sched_parse urls max_concurrent tr :
  pool_ok ->
  (1 <= max_concurrent)%Z ->
  valid_urls up urls <> [] ->
  exists out,
    (main up sched_fetch sched_parse urls max_concurrent tr).1 = (0%Z, out)
    /\ length out = (3 * length (valid_urls up urls))%nat
    /\ forall i url,
         valid_urls up urls !! i = Some url ->
         out !! (3 * i)%nat
         = Some (PyStr.nl +:+ "=== Content from " +:+ url +:+ " ===")
         /\ out !! (3 * i + 1)%nat
            = Some (extraction
                      (fetched
                         (i mod pool_size (valid_urls up urls) max_concurrent)%nat
                         url) url)
         /\ out !! (3 * i + 2)%nat = Some (PyStr.repeat "=" 80).
Proof.
  intros Hok Hmc Hne. unfold main.
  destruct (valid_urls up urls) as [|u us] eqn:Hv; [done|].
  pose proof (process_urls_ok sched_fetch sched_parse (u :: us)
                max_concurrent tr Hok (or_intror Hmc)) as Hr.
  set (expected := zip_with _ _ _) in Hr.
  destruct (process_urls _ _ _ _ _) as [[results|e] tr']; cbn [fst] in Hr;
    [|done].
  assert (results = expected) as -> by congruence. subst expected.
  eexists. split; [done|]. split.
  - apply print_results_length, process_urls_length.
  - intros i url Hi. apply print_results_lookup; [done|].
    by apply process_urls_slot.
Qed.


End Scraper.

(** C2. Take a batch on a backend whose pool works, and let the navigation
    for URL [j] fail on a second such backend that answers every other URL
    of the batch as the first does. The second batch still returns;
    [fetch_page] gives [None] for URL [j] and slot [j] is the empty string,
    not an error document; every other slot is what it is in the first
    batch. *)
Theorem failed_fetch_leaves_an_empty_slot
    hash html5lib_parse recursion_budget recursion_msg (B B' : backend)
    sched_fetch sched_parse sched_fetch' sched_parse'
    urls max_concurrent tr tr' j url_j e :
  pool_ok B ->
  pool_ok B' ->
  (1 <= max_concurrent)%Z ->
  urls !! j = Some url_j ->
  navigate B' (j mod pool_size urls max_concurrent)%nat url_j = Raise e ->
  (forall i url,
     urls !! i = Some url -> i <> j ->
     navigate B' (i mod pool_size urls max_concurrent)%nat url
     = navigate B (i mod pool_size urls max_concurrent)%nat url) ->
  exists results results',
    (process_urls hash html5lib_parse recursion_budget recursion_msg B
       sched_fetch sched_parse urls max_concurrent tr).1 = Ok results
    /\ (process_urls hash html5lib_parse recursion_budget recursion_msg B'
          sched_fetch' sched_parse' urls max_concurrent tr').1 = Ok results'
    /\ (finish (fetch_page B' url_j
                  (j mod pool_size urls max_concurrent)%nat)).2 = Ok None
    /\ results' !! j = Some ""
    /\ length results' = length urls
    /\ (forall i, i <> j -> results' !! i = results !! i).
Proof.
  intros Hok Hok' Hmc Hj Hfail Hsame.
  assert (Hor : urls = [] \/ (1 <= max_concurrent)%Z) by by right.
  do 2 eexists.
  split; [by apply process_urls_ok|]. split; [by apply process_urls_ok|].
  split; [|split; [|split]].
  - rewrite finish_fetch_page_ok by done. unfold fetched. by rewrite Hfail.
  - rewrite (process_urls_slot _ _ _ _ _ _ _ _ _ Hj).
    unfold fetched. by rewrite Hfail.
  - apply process_urls_length.
  - intros i Hi. destruct (urls !! i) as [url|] eqn:Hu.
    + rewrite !(process_urls_slot _ _ _ _ _ _ _ _ _ Hu).
      unfold fetched. by rewrite (Hsame i url Hu Hi).
    + apply lookup_ge_None in Hu.
      rewrite !(proj2 (lookup_ge_None _ _)); [done|..];
        by rewrite process_urls_length.
Qed.

(** C7, at the failing input. Two URLs, a bound of two, and a backend on
    which the second [new_context] call raises: line 191 does not
    complete, [contexts] stays unbound, the [finally] block raises
    [UnboundLocalError] at line 211. Context 0 was made and is not closed,
    and [browser.close()] is not reached, under every schedule. *)
Theorem failed_context_creation_skips_the_teardown
    hash html5lib_parse recursion_budget recursion_msg sched_fetch sched_parse :
  new_context crashing_backend 0 = None
  /\ new_context crashing_backend 1 = Some (Exception "Error" "Target closed")
  /\ process_urls hash html5lib_parse recursion_budget recursion_msg
       crashing_backend sched_fetch sched_parse
       ["https://en.wikipedia.org/wiki/Python_(programming_language)";
        "https://en.wikipedia.org/wiki/JavaScript"] 2 []
     = (Raise UnboundLocalError,
        [PlaywrightStart; Launch; NewContext 0; PlaywrightStop])
  /\ List.filter is_teardown
       (process_urls hash html5lib_parse recursion_budget recursion_msg
          crashing_backend sched_fetch sched_parse
          ["https://en.wikipedia.org/wiki/Python_(programming_language)";
           "https://en.wikipedia.org/wiki/JavaScript"] 2 []).2
     = [].
Proof. by repeat split. Qed.

(** ** The statements at sample inputs *)

(** Three URLs on two contexts: the fetches interleave as the schedule
    says, and the results come back in the order of the URLs. *)
Example process_urls_example :
  process_urls sample_hash sample_parse sample_budget sample_recursion_msg
    sample_backend [2; 0; 1; 1; 0; 2; 2]%nat [2]%nat sample_urls 2 []
  = (Ok [ PyStr.join PyStr.nl
            ["Title: T";
             "URL: https://en.wikipedia.org/wiki/Python_(programming_language)";
             ""; "  Hi"];
          "";
          PyStr.join PyStr.nl
            ["Title: T"; "URL: https://en.wikipedia.org/wiki/JavaScript";
             ""; "  Hi"] ],
     [ PlaywrightStart; Launch; NewContext 0; NewContext 1;
       NewPage 0 "https://en.wikipedia.org/wiki/JavaScript";
       NewPage 0 "https://en.wikipedia.org/wiki/Python_(programming_language)";
       NewPage 1 "https://nonexistent-domain-12345.com";
       Navigate 1 "https://nonexistent-domain-12345.com";
       Navigate 0 "https://en.wikipedia.org/wiki/Python_(programming_language)";
       Navigate 0 "https://en.wikipedia.org/wiki/JavaScript";
       PageClose 0 "https://en.wikipedia.org/wiki/JavaScript";
       PageClose 0 "https://en.wikipedia.org/wiki/Python_(programming_language)";
       PageClose 1 "https://nonexistent-domain-12345.com";
       ToThread "https://en.wikipedia.org/wiki/JavaScript";
       ToThread "https://en.wikipedia.org/wiki/Python_(programming_language)";
       ContextClose 0; ContextClose 1; BrowserClose; PlaywrightStop ]).
Proof. vm_compute. reflexivity. Qed.

Lemma pool_ok_sample_backend : pool_ok sample_backend.
Proof. by repeat split. Qed.

Lemma pool_ok_steady_backend : pool_ok steady_backend.
Proof. by repeat split. Qed.

Lemma process_urls_keeps_the_order_witness :
  pool_ok sample_backend
  /\ (1 <= 2)%Z
  /\ exists results,
       (process_urls sample_hash sample_parse sample_budget
          sample_recursion_msg sample_backend [2; 0; 1; 1; 0] [2; 2]
          sample_urls 2 []).1 = Ok results
       /\ length results = length sample_urls.
Proof.
  split; [exact pool_ok_sample_backend|]. split; [lia|].
  destruct (process_urls_keeps_the_order sample_hash sample_parse
              sample_budget sample_recursion_msg sample_backend
              [2; 0; 1; 1; 0]%nat [2; 2]%nat sample_urls 2 []
              pool_ok_sample_backend ltac:(lia))
    as (results & H1 & H2 & _).
  exists results. by split.
Defined.

Lemma failed_fetch_leaves_an_empty_slot_witness :
  pool_ok steady_backend
  /\ pool_ok sample_backend
  /\ exists results results',
       (process_urls sample_hash sample_parse sample_budget
          sample_recursion_msg steady_backend [] [] sample_urls 2 []).1
       = Ok results
       /\ (process_urls sample_hash sample_parse sample_budget
             sample_recursion_msg sample_backend [1; 0] [] sample_urls 2 []).1
          = Ok results'
       /\ results' !! 1%nat = Some ""
       /\ (forall i, i <> 1%nat -> results' !! i = results !! i).
Proof.
  split; [exact pool_ok_steady_backend|].
  split; [exact pool_ok_sample_backend|].
  destruct (failed_fetch_leaves_an_empty_slot sample_hash sample_parse
              sample_budget sample_recursion_msg steady_backend sample_backend
              [] [] [1; 0]%nat [] sample_urls 2 [] [] 1%nat
              "https://nonexistent-domain-12345.com"
              (Exception "Error" "net::ERR_NAME_NOT_RESOLVED")
              pool_ok_steady_backend pool_ok_sample_backend ltac:(lia)
              eq_refl eq_refl)
    as (results & results' & H1 & H2 & _ & H3 & _ & H4).
  - intros [|[|[|i]]] url Hu Hi; try done;
      injection Hu as <-; reflexivity.
  - exists results, results'. by repeat split.
Defined.

Lemma noise_filter_keeps_the_unmatched_lines_witness :
  filtered_result sample_hash sample_parse sample_budget sample_recursion_msg
    attr_html "https://example.com/" = Ok ["URL: https://example.com/"; ""; "  Hi"]
  /\ PyStr.contains "onclick="
       (_parse_html_impl sample_hash sample_parse sample_budget
          sample_recursion_msg attr_html "https://example.com/") = false.
Proof.
  assert (H : filtered_result sample_hash sample_parse sample_budget
                sample_recursion_msg attr_html "https://example.com/"
              = Ok ["URL: https://example.com/"; ""; "  Hi"])
    by (vm_compute; reflexivity).
  split; [exact H|].
  destruct (noise_filter_keeps_the_unmatched_lines _ _ _ _ _ _ _ H)
    as (? & ? & _ & _ & _ & _ & _ & _ & _ & Hc & _).
  exact Hc.
Defined.

Lemma noise_filter_drops_metadata_lines_witness :
  sample_parse attr_html = Ok attr_tree
  /\ filtered_result sample_hash sample_parse sample_budget
       sample_recursion_msg attr_html "https://example.com/page?id=7"
     = Ok [""; "  Hi"]
  /\ ("URL: https://example.com/page?id=7" ∉ [""; "  Hi"])
  /\ ("Title: The id= attribute" ∉ [""; "  Hi"]).
Proof.
  assert (Hp : sample_parse attr_html = Ok attr_tree) by reflexivity.
  assert (H : filtered_result sample_hash sample_parse sample_budget
                sample_recursion_msg attr_html "https://example.com/page?id=7"
              = Ok [""; "  Hi"])
    by (vm_compute; reflexivity).
  split; [exact Hp|]. split; [exact H|].
  destruct (noise_filter_drops_metadata_lines _ _ _ _ _ _ _ _ Hp H)
    as (_ & _ & Hu & Ht).
  split.
  - apply Hu. left. reflexivity.
  - apply (Ht "The id= attribute"). left. reflexivity.
Defined.

Lemma extraction_errors_are_caught_witness :
  deep_html <> ""
  /\ parse_try sample_hash sample_parse sample_budget sample_recursion_msg
       deep_html "u"
     = Raise (RecursionError sample_recursion_msg)
  /\ _parse_html_impl sample_hash sample_parse sample_budget
       sample_recursion_msg deep_html "u"
     = PyStr.join PyStr.nl
         ["URL: u"; ""; "Error parsing content: maximum recursion depth exceeded"].
Proof.
  assert (Hne : deep_html <> "") by (vm_compute; discriminate).
  assert (H : parse_try sample_hash sample_parse sample_budget
                sample_recursion_msg deep_html "u"
              = Raise (RecursionError sample_recursion_msg))
    by (vm_compute; reflexivity).
  split; [exact Hne|]. split; [exact H|].
  destruct (extraction_errors_are_caught sample_hash sample_parse
              sample_budget sample_recursion_msg deep_html "u" Hne)
    as (_ & _ & _ & Hc).
  destruct (Hc _ H) as [Hdoc _]. exact Hdoc.
Defined.

(** The error document of line 182 is returned as it is: a URL with
    "javascript:" in it is in the text that comes back for a page too
    deep for the interpreter. *)
Lemma error_document_is_not_filtered :
  sample_parse deep_html = Ok deep_tree
  /\ _parse_html_impl sample_hash sample_parse sample_budget
       sample_recursion_msg deep_html
       "https://example.com/?next=javascript:void(0)"
     = PyStr.join PyStr.nl
         ["URL: https://example.com/?next=javascript:void(0)"; "";
          "Error parsing content: maximum recursion depth exceeded"]
  /\ PyStr.contains "javascript:"
       (_parse_html_impl sample_hash sample_parse sample_budget
          sample_recursion_msg deep_html
          "https://example.com/?next=javascript:void(0)") = true.
Proof. repeat split; vm_compute; reflexivity. Qed.

Lemma metadata_line_repeated_in_body :
  sample_parse echo_html = Ok echo_tree
  /\ filtered_result sample_hash sample_parse sample_budget
       sample_recursion_msg echo_html "u"
     = Ok ["Title: T"; "URL: u"; ""; "Title: T"]
  /\ ~ NoDup ["Title: T"; "URL: u"; ""; "Title: T"].
Proof.
  split; [reflexivity|]. split; [vm_compute; reflexivity|].
  intros H. apply NoDup_cons in H as [H _]. apply H.
  do 2 apply list_elem_of_further. apply list_elem_of_here.
Qed.

Lemma body_lines_are_first_occurrences_witness :
  filtered_result sample_hash sample_parse sample_budget sample_recursion_msg
    hi_html "u" = Ok ["Title: T"; "URL: u"; ""; "  Hi"]
  /\ exists body,
       content sample_hash sample_budget sample_recursion_msg hi_tree = Ok body
       /\ NoDup body.
Proof.
  assert (H : filtered_result sample_hash sample_parse sample_budget
                sample_recursion_msg hi_html "u"
              = Ok ["Title: T"; "URL: u"; ""; "  Hi"])
    by (vm_compute; reflexivity).
  split; [exact H|].
  destruct (body_lines_are_first_occurrences _ _ _ _ _ _ _ H)
    as (parsed & cands & body & Hp & _ & Hc & _ & _ & _ & Hnd & _).
  exists body. split; [|exact Hnd].
  assert (parsed = hi_tree) as <-; [|exact Hc].
  change (sample_parse hi_html) with (Ok hi_tree) in Hp. by injection Hp.
Defined.

Lemma end_to_end_line_is_indented :
  sample_parse hi_html = Ok hi_tree
  /\ _parse_html_impl sample_hash sample_parse sample_budget
       sample_recursion_msg hi_html "u"
     = PyStr.join PyStr.nl ["Title: T"; "URL: u"; ""; "  Hi"]
  /\ _parse_html_impl sample_hash sample_parse sample_budget
       sample_recursion_msg hi_html "u"
     <> PyStr.join PyStr.nl ["Title: T"; "URL: u"; ""; "Hi"].
Proof.
  split; [reflexivity|]. split; [vm_compute; reflexivity|].
  vm_compute. discriminate.
Qed.

Lemma end_to_end_document_witness :
  sample_parse hi_html = Ok hi_tree
  /\ 2 <= sample_budget
  /\ skip_line noise_patterns "URL: u" = false
  /\ _parse_html_impl sample_hash sample_parse sample_budget
       sample_recursion_msg hi_html "u"
     = PyStr.join PyStr.nl ["Title: T"; "URL: u"; ""; "  Hi"].
Proof.
  split; [reflexivity|]. split; [unfold sample_budget; lia|].
  split; [reflexivity|].
  apply (end_to_end_document sample_hash sample_parse sample_budget
           sample_recursion_msg "u");
    [reflexivity|unfold sample_budget; lia|reflexivity].
Defined.

Lemma pool_has_min_contexts_round_robin_witness :
  sample_urls <> []
  /\ (1 <= 2)%Z
  /\ launch sample_backend = None
  /\ pool_size sample_urls 2 = 2%nat
  /\ List.filter is_new_context
       (process_urls sample_hash sample_parse sample_budget
          sample_recursion_msg sample_backend [0; 1; 2] [] sample_urls 2 []).2
     = [NewContext 0; NewContext 1].
Proof.
  split; [discriminate|]. split; [lia|]. split; [reflexivity|].
  destruct (pool_has_min_contexts_round_robin sample_hash sample_parse
              sample_budget sample_recursion_msg sample_backend
              [0; 1; 2]%nat [] sample_urls 2 []
              ltac:(discriminate) ltac:(lia) eq_refl (fun _ => eq_refl))
    as (H1 & H2 & _).
  split; [exact H1|exact H2].
Defined.

(** ** Further statements at sample inputs *)


Lemma script_and_style_content_is_ignored_witness :
  text (scripted_body "var a = 1;" [])
  = text (scripted_body "alert(2)" [sample_element "b" (Some "x") []])
  /\ process_element sample_hash sample_recursion_msg 5 ∅
       (scripted_body "var a = 1;" []) 0
     = process_element sample_hash sample_recursion_msg 5 ∅
         (scripted_body "alert(2)" [sample_element "b" (Some "x") []]) 0.
Proof.
  split; [reflexivity|].
  apply script_and_style_content_is_ignored; [reflexivity|].
  constructor; [by apply same_hidden|].
  constructor; [|constructor].
  apply same_shown; [reflexivity|reflexivity|reflexivity|reflexivity|].
  constructor.
Defined.

Lemma body_lines_are_indented_texts_witness :
  process_element sample_hash sample_recursion_msg 5 ∅ (body_of hi_tree) 0
  = Ok (["  Hi"], {[sample_hash "Hi"]} ∪ ∅)
  /\ exists k t,
       (0 <= k)%nat
       /\ "  Hi" = PyStr.repeat "  " k +:+ PyStr.strip t
       /\ PyStr.nonempty (PyStr.strip t) = true
       /\ PyStr.lstrip "  Hi" = PyStr.strip t
       /\ PyStr.startswith (PyStr.repeat "  " 0) "  Hi" = true.
Proof.
  assert (H : process_element sample_hash sample_recursion_msg 5 ∅
                (body_of hi_tree) 0
              = Ok (["  Hi"], {[sample_hash "Hi"]} ∪ ∅))
    by (vm_compute; reflexivity).
  split; [exact H|].
  apply (body_lines_are_indented_texts _ _ _ _ _ _ _ _ H).
  apply list_elem_of_here.
Defined.

Lemma separator_is_the_only_empty_line_witness :
  prefilter sample_hash sample_budget sample_recursion_msg hi_tree "u"
  = Ok ["Title: T"; "URL: u"; ""; "  Hi"]
  /\ (["Title: T"; "URL: u"; ""; "  Hi"] !! 2%nat = Some ""
      <-> 2%nat = length (metadata hi_tree "u")).
Proof.
  assert (H : prefilter sample_hash sample_budget sample_recursion_msg
                hi_tree "u" = Ok ["Title: T"; "URL: u"; ""; "  Hi"])
    by (vm_compute; reflexivity).
  split; [exact H|].
  apply (separator_is_the_only_empty_line _ _ _ _ _ _ 2%nat H).
Defined.

Lemma entered_texts_are_emitted_witness :
  process_element sample_hash sample_recursion_msg 5 ∅ (body_of hi_tree) 0
  = Ok (["  Hi"], {[sample_hash "Hi"]} ∪ ∅)
  /\ visited (body_of hi_tree) 0 (sample_element "p" (Some "Hi") []) 1
  /\ (sample_hash (PyStr.strip "Hi") ∈ (∅ : gset Z)
      \/ exists l, l ∈ ["  Hi"]
                   /\ line_key sample_hash l = sample_hash (PyStr.strip "Hi")).
Proof.
  assert (H : process_element sample_hash sample_recursion_msg 5 ∅
                (body_of hi_tree) 0
              = Ok (["  Hi"], {[sample_hash "Hi"]} ∪ ∅))
    by (vm_compute; reflexivity).
  assert (Hv : visited (body_of hi_tree) 0
                 (sample_element "p" (Some "Hi") []) 1).
  { eapply visited_child; [apply visited_root| |reflexivity].
    apply list_elem_of_here. }
  split; [exact H|]. split; [exact Hv|].
  apply (entered_texts_are_emitted _ _ _ _ _ _ _ _ _ _ H Hv
           (Some "Hi") "Hi"); [by left|reflexivity|reflexivity].
Defined.

Lemma description_is_the_first_match_witness :
  is_description
    (Element (Some "meta")
       (<["name" := "viewport"]> (<["content" := "width=1"]> ∅))
       None None []) = false
  /\ is_description
       (Element (Some "meta")
          (<["name" := "DESCRIPTION"]> (<["content" := " An article "]> ∅))
          None None []) = true
  /\ description_lines sample_metas = ["Description: An article"].
Proof.
  split; [vm_compute; reflexivity|]. split; [vm_compute; reflexivity|].
  destruct (description_is_the_first_match sample_metas) as [_ H].
  pose proof (H [Element (Some "meta")
                   (<["name" := "viewport"]> (<["content" := "width=1"]> ∅))
                   None None []]
                (Element (Some "meta")
                   (<["name" := "DESCRIPTION"]>
                      (<["content" := " An article "]> ∅))
                   None None [])
                [Element (Some "meta")
                   (<["name" := "description"]>
                      (<["content" := "Another one"]> ∅))
                   None None []]
                eq_refl) as R.
  rewrite R; [vm_compute; reflexivity| |vm_compute; reflexivity].
  constructor; [vm_compute; reflexivity|constructor].
Defined.

Lemma returned_text_has_no_noise_word_witness :
  filtered_result sample_hash sample_parse sample_budget sample_recursion_msg
    attr_html "https://example.com/page?id=7" = Ok [""; "  Hi"]
  /\ PyStr.contains "id="
       (_parse_html_impl sample_hash sample_parse sample_budget
          sample_recursion_msg attr_html "https://example.com/page?id=7")
     = false.
Proof.
  assert (H : filtered_result sample_hash sample_parse sample_budget
                sample_recursion_msg attr_html "https://example.com/page?id=7"
              = Ok [""; "  Hi"])
    by (vm_compute; reflexivity).
  split; [exact H|].
  apply (returned_text_has_no_noise_word _ _ _ _ _ _ _ H ["id="] "id=").
  - apply list_elem_of_In. simpl. tauto.
  - apply list_elem_of_here.
Defined.

Lemma page_errors_abort_the_batch_witness :
  launch pageless_backend = None
  /\ (1 <= 2)%Z
  /\ new_page pageless_backend (1 mod pool_size sample_urls 2)%nat
       "https://nonexistent-domain-12345.com"
     = Some (Exception "Error" "Target closed")
  /\ exists e',
       (process_urls sample_hash sample_parse sample_budget
          sample_recursion_msg pageless_backend [0; 2; 1] [] sample_urls 2
          []).1 = Raise e'.
Proof.
  split; [reflexivity|]. split; [lia|]. split; [reflexivity|].
  apply (page_errors_abort_the_batch sample_hash sample_parse sample_budget
           sample_recursion_msg pageless_backend [0; 2; 1]%nat [] sample_urls
           2 [] 1%nat "https://nonexistent-domain-12345.com"
           (Exception "Error" "Target closed"));
    [reflexivity|reflexivity|lia|reflexivity|left; reflexivity].
Defined.


Lemma failed_close_stops_the_teardown_witness :
  (1 < pool_size sample_urls 2)%nat
  /\ context_close stuck_backend 1 = Some (Exception "Error" "Target closed")
  /\ (process_urls sample_hash sample_parse sample_budget
        sample_recursion_msg stuck_backend [] [] sample_urls 2 []).1
     = Raise (Exception "Error" "Target closed")
  /\ List.filter is_teardown
       (process_urls sample_hash sample_parse sample_budget
          sample_recursion_msg stuck_backend [] [] sample_urls 2 []).2
     = [ContextClose 0].
Proof.
  assert (Hk : (1 < pool_size sample_urls 2)%nat) by (vm_compute; lia).
  split; [exact Hk|]. split; [reflexivity|].
  apply (failed_close_stops_the_teardown sample_hash sample_parse
           sample_budget sample_recursion_msg stuck_backend [] [] sample_urls
           2 [] 1%nat (Exception "Error" "Target closed"));
    [reflexivity|reflexivity|lia|exact Hk|reflexivity|].
  intros [|c] Hc; [reflexivity|lia].
Defined.

Lemma no_pool_divides_by_zero_witness :
  sample_urls <> []
  /\ (0 <= 0)%Z
  /\ process_urls sample_hash sample_parse sample_budget sample_recursion_msg
       sample_backend [] [] sample_urls 0 []
     = (Raise ZeroDivisionError,
        [] ++ [PlaywrightStart; Launch; BrowserClose; PlaywrightStop]).
Proof.
  split; [discriminate|]. split; [lia|].
  apply no_pool_divides_by_zero; [reflexivity|reflexivity|discriminate|lia].
Defined.

Lemma empty_batch_witness :
  launch sample_backend = None
  /\ browser_close sample_backend = None
  /\ process_urls sample_hash sample_parse sample_budget sample_recursion_msg
       sample_backend [3; 1] [0] [] 5 []
     = (Ok [], [] ++ [PlaywrightStart; Launch; BrowserClose; PlaywrightStop]).
Proof.
  split; [reflexivity|]. split; [reflexivity|].
  apply empty_batch; reflexivity.
Defined.

Lemma pages_are_opened_and_closed_witness :
  pool_ok sample_backend
  /\ exists fetches parses,
       (process_urls sample_hash sample_parse sample_budget
          sample_recursion_msg sample_backend [2; 0; 1; 1; 0] [2] sample_urls
          2 []).2
       = [] ++ [PlaywrightStart; Launch]
            ++ (NewContext <$> seq 0 (pool_size sample_urls 2))
            ++ fetches ++ parses
            ++ (ContextClose <$> seq 0 (pool_size sample_urls 2))
            ++ [BrowserClose; PlaywrightStop]
       /\ length fetches = 9%nat
       /\ length parses = 2%nat.
Proof.
  split; [exact pool_ok_sample_backend|].
  destruct (pages_are_opened_and_closed sample_hash sample_parse sample_budget
              sample_recursion_msg sample_backend [2; 0; 1; 1; 0]%nat [2]%nat
              sample_urls 2 [] pool_ok_sample_backend
              (or_intror (ltac:(lia) : (1 <= 2)%Z)))
    as (fetches & parses & Ht & Hf & Hp).
  exists fetches, parses. split; [exact Ht|].
  split; [by rewrite Hf|by rewrite Hp].
Defined.

Lemma failed_urls_are_not_counted_witness :
  pool_ok sample_backend
  /\ (1 <= 2)%Z
  /\ navigate sample_backend (1 mod pool_size sample_urls 2)%nat
       "https://nonexistent-domain-12345.com"
     = Raise (Exception "Error" "net::ERR_NAME_NOT_RESOLVED")
  /\ exists results,
       (process_urls sample_hash sample_parse sample_budget
          sample_recursion_msg sample_backend [] [] sample_urls 2 []).1
       = Ok results
       /\ (success_count results < length sample_urls)%nat.
Proof.
  split; [exact pool_ok_sample_backend|]. split; [lia|].
  split; [reflexivity|].
  destruct (failed_urls_are_not_counted sample_hash sample_parse sample_budget
              sample_recursion_msg sample_backend [] [] sample_urls 2 []
              pool_ok_sample_backend ltac:(lia))
    as (results & Hr & _ & Hlt).
  exists results. split; [exact Hr|].
  apply (Hlt 1%nat "https://nonexistent-domain-12345.com"
           (Exception "Error" "net::ERR_NAME_NOT_RESOLVED"));
    reflexivity.
Defined.

Lemma main_without_valid_url_witness :
  Forall (fun url => validate_url sample_urlparse url = false)
    ["not_a_url"; "javascript:alert('test')"]
  /\ main sample_hash sample_parse sample_budget sample_recursion_msg
       sample_backend sample_urlparse [] []
       ["not_a_url"; "javascript:alert('test')"] 5 []
     = ((1%Z, []), []).
Proof.
  assert (H : Forall (fun url => validate_url sample_urlparse url = false)
                ["not_a_url"; "javascript:alert('test')"])
    by (repeat constructor).
  split; [exact H|]. by apply main_without_valid_url.
Defined.

Lemma main_prints_one_block_per_valid_url_witness :
  pool_ok sample_backend
  /\ (1 <= 2)%Z
  /\ valid_urls sample_urlparse sample_arguments = sample_urls
  /\ exists out,
       (main sample_hash sample_parse sample_budget sample_recursion_msg
          sample_backend sample_urlparse [] [] sample_arguments 2 []).1
       = (0%Z, out)
       /\ length out = 9%nat.
Proof.
  split; [exact pool_ok_sample_backend|]. split; [lia|].
  split; [reflexivity|].
  destruct (main_prints_one_block_per_valid_url sample_hash sample_parse
              sample_budget sample_recursion_msg sample_backend
              sample_urlparse [] [] sample_arguments 2 []
              pool_ok_sample_backend ltac:(lia) ltac:(discriminate))
    as (out & Hm & Hlen & _).
  exists out. split; [exact Hm|exact Hlen].
Defined.
